(** * Atlas Jenga game: the weight classifier and the game state machine

    A shallow embedding of [atlas_game_main.py]: the serial weight sampler
    ([SerialHandler]), the two detectors built on it, the score formula, the
    event handler, the per-frame [update] and the [run] loop, followed by the
    properties of the design document that concern them.

    Conventions of the embedding.
    - Python [float] quantities, the weights and the times, are rationals
      ([Q]), and counters are integers ([Z]).  Where the result of float
      arithmetic is truncated by [int()], in [calculate_score], each
      operation is rounded as binary64 rounds it ([round64]); the
      differences that are only compared with a threshold are taken exact.
      Infinities, NaN and overflow are outside the model.
    - An object becomes a record, a method a function that takes the record
      and returns the result together with the record after the call.
    - [time.time()] is an input: every function that reads the clock takes
      the instant read as an argument.
    - The serial port is the list of lines received and not yet read.
    - Rendering assigns no attribute of the game.  [draw] is modelled by
      the texts it puts on the screen, with the width of a rendered text as
      a parameter; [run] is the loop without its call of [draw],
      [run_drawing] the loop with it. *)

From Stdlib Require Import ZArith QArith Qabs Qround Qpower.
From Stdlib Require Import String Ascii List Bool Lia Lqa.
From Stdlib Require Import DecimalString Sorted Permutation.
Import ListNotations.

Local Open Scope Q_scope.

(** ** Numbers *)

(** [x < y] on rationals as a boolean, the comparison the detectors use. *)
Definition Qltb (x y : Q) : bool := negb (Qle_bool y x).

(** Python's [int(x)] on a real number: truncation toward zero. *)
Definition py_int (x : Q) : Z := Z.quot (Qnum x) (Zpos (Qden x)).

(** *** Rounding to binary64

    The result of a float operation is the binary64 number nearest to the
    exact result, ties going to the even significand.  [round64] is that
    rounding on the rationals, subnormal numbers included. *)

Definition pow2 (k : Z) : Q := 2 ^ k.

(** The integer part of the binary logarithm of a positive rational. *)
Definition Qlog2 (x : Q) : Z :=
  let k := (Z.log2 (Qnum x) - Z.log2 (Zpos (Qden x)))%Z in
  if Qle_bool (pow2 k) x then k else (k - 1)%Z.

(** Rounding to the nearest integer, halves to the even one. *)
Definition round_half_even (x : Q) : Z :=
  let f := Qfloor x in
  match Qcompare (x - inject_Z f) (1 # 2) with
  | Lt => f
  | Gt => (f + 1)%Z
  | Eq => if Z.even f then f else (f + 1)%Z
  end.

(** The exponent of the unit in the last place of a positive [x]: 53
    significant bits, and no unit below 2^-1074. *)
Definition ulp_exponent (x : Q) : Z := Z.max (Qlog2 x - 52) (-1074).

(** Rounding of a number that is not negative. *)
Definition round64_magnitude (x : Q) : Q :=
  let e := ulp_exponent x in
  inject_Z (round_half_even (x * pow2 (- e))) * pow2 e.

Definition round64 (x : Q) : Q :=
  if Qle_bool 0 x then round64_magnitude x else - round64_magnitude (- x).

(** ** Module constants *)

Definition FPS : Z := 30.
Definition GAME_DURATION : Q := 120.
Definition BLOCKS_TO_WIN : Z := 10.
Definition WEIGHT_THRESHOLD : Q := 5.
Definition COLLAPSE_THRESHOLD : Q := 30.

(** ** Strings, as far as [read_weight] uses them *)

Local Open Scope string_scope.

(** Whitespace removed by [str.strip()] (the ASCII part of it). *)
Definition is_space (c : ascii) : bool :=
  let n := nat_of_ascii c in
  ((9 <=? n) && (n <=? 13) || (28 <=? n) && (n <=? 32))%nat.

Fixpoint lstrip (s : string) : string :=
  match s with
  | EmptyString => EmptyString
  | String c s' => if is_space c then lstrip s' else s
  end.

Fixpoint string_rev (s acc : string) : string :=
  match s with
  | EmptyString => acc
  | String c s' => string_rev s' (String c acc)
  end.

Definition rstrip (s : string) : string :=
  string_rev (lstrip (string_rev s "")) "".

Definition strip (s : string) : string := rstrip (lstrip s).

(** [sub in s]. *)
Fixpoint contains (sub s : string) : bool :=
  String.prefix sub s ||
  match s with
  | EmptyString => false
  | String _ s' => contains sub s'
  end.

(** [s.split(sep)] for a non-empty separator, scanning left to right.
    [skip] counts the characters of a separator just matched that are still
    to be passed over, [cur] is the current piece, reversed. *)
Fixpoint split_aux (sep : string) (skip : nat) (cur s : string) : list string :=
  match s with
  | EmptyString => [string_rev cur ""]
  | String c s' =>
      match skip with
      | S k => split_aux sep k cur s'
      | O =>
          if String.prefix sep s
          then string_rev cur "" :: split_aux sep (String.length sep - 1) "" s'
          else split_aux sep 0 (String c cur) s'
      end
  end.

Definition split (sep s : string) : list string := split_aux sep 0 "" s.

(** [s[:-1]]. *)
Fixpoint drop_last (s : string) : string :=
  match s with
  | EmptyString => EmptyString
  | String c EmptyString => EmptyString
  | String c s' => String c (drop_last s')
  end.

(** A reader of plain decimal numerals, [[+-]digits[.digits]], the notation
    the load-cell firmware prints.  It is used for the concrete scenarios
    below; the development itself is parametric in Python's [float()]. *)
Definition digit_of (c : ascii) : option Z :=
  let n := nat_of_ascii c in
  if ((48 <=? n) && (n <=? 57))%nat then Some (Z.of_nat (n - 48)) else None.

Fixpoint digits (s : string) (acc : Z) : option (Z * string) :=
  match s with
  | EmptyString => Some (acc, EmptyString)
  | String c s' =>
      match digit_of c with
      | Some d => digits s' (10 * acc + d)
      | None => Some (acc, s)
      end
  end.

Fixpoint fraction (s : string) (num : Z) (den : positive) : option Q :=
  match s with
  | EmptyString => Some (num # den)
  | String c s' =>
      match digit_of c with
      | Some d => fraction s' (10 * num + d) (10 * den)
      | None => None
      end
  end.

Definition unsigned_decimal (s : string) : option Q :=
  match s with
  | EmptyString => None
  | String c _ =>
      match digit_of c with
      | None => None
      | Some _ =>
          match digits s 0 with
          | Some (n, EmptyString) => Some (inject_Z n)
          | Some (n, String "." rest) => fraction rest n 1
          | _ => None
          end
      end
  end.

Definition decimal (s : string) : option Q :=
  match strip s with
  | String "-" s' => option_map Qopp (unsigned_decimal s')
  | String "+" s' => unsigned_decimal s'
  | s' => unsigned_decimal s'
  end.

Local Close Scope string_scope.

(** ** Data model *)

Inductive GameState := PREGAME | PLAYING | POSTGAME.

Definition GameState_eqb (a b : GameState) : bool :=
  match a, b with
  | PREGAME, PREGAME | PLAYING, PLAYING | POSTGAME, POSTGAME => true
  | _, _ => false
  end.

(** The [Score] dataclass. *)
Module Score.
Record t := make {
  team_name : string;
  blocks_removed : Z;
  time_remaining : Q;
  total_score : Z;
  timestamp : Q
}.
End Score.

(** What one read of the open port meets: a complete line that decodes, a
    line whose bytes do not decode ([UnicodeDecodeError], a [ValueError]), or
    a read on which the driver raises [SerialException]. *)
Inductive rx :=
| Line (raw : string)
| Undecodable
| PortError.

(** [SerialHandler]: [serial] is [None] when the port could not be opened,
    otherwise the input received and not yet read ([in_waiting] is true when
    that list is not empty). *)
Record SerialHandler := mkSerialHandler {
  serial : option (list rx);
  last_weight : Q
}.

(** [LeaderboardManager]: the rows of the [leaderboard] table in insertion
    order, and whether the connection currently fails its statements. *)
Record LeaderboardManager := mkLeaderboard {
  rows : list Score.t;
  io_failure : bool
}.

Inductive exn := sqlite3_Error | OverflowError.

(** [AtlasJengaGame]; [audio] is the list of the sounds played, oldest
    first. *)
Record AtlasJengaGame := mkGame {
  serial_handler : SerialHandler;
  leaderboard : LeaderboardManager;
  audio : list string;
  state : GameState;
  blocks_removed : Z;
  start_time : Q;
  time_remaining : Q;
  current_score : Z;
  team_name : string;
  tower_collapsed : bool
}.

Definition set_serial_handler (h : SerialHandler) (g : AtlasJengaGame) :=
  mkGame h (leaderboard g) (audio g) (state g) (blocks_removed g)
         (start_time g) (time_remaining g) (current_score g) (team_name g)
         (tower_collapsed g).

Definition set_leaderboard (l : LeaderboardManager) (g : AtlasJengaGame) :=
  mkGame (serial_handler g) l (audio g) (state g) (blocks_removed g)
         (start_time g) (time_remaining g) (current_score g) (team_name g)
         (tower_collapsed g).

Definition set_state (s : GameState) (g : AtlasJengaGame) :=
  mkGame (serial_handler g) (leaderboard g) (audio g) s (blocks_removed g)
         (start_time g) (time_remaining g) (current_score g) (team_name g)
         (tower_collapsed g).

Definition set_blocks_removed (n : Z) (g : AtlasJengaGame) :=
  mkGame (serial_handler g) (leaderboard g) (audio g) (state g) n
         (start_time g) (time_remaining g) (current_score g) (team_name g)
         (tower_collapsed g).

Definition set_time_remaining (t : Q) (g : AtlasJengaGame) :=
  mkGame (serial_handler g) (leaderboard g) (audio g) (state g)
         (blocks_removed g) (start_time g) t (current_score g) (team_name g)
         (tower_collapsed g).

Definition set_team_name (s : string) (g : AtlasJengaGame) :=
  mkGame (serial_handler g) (leaderboard g) (audio g) (state g)
         (blocks_removed g) (start_time g) (time_remaining g)
         (current_score g) s (tower_collapsed g).

(** Input events of [pygame.event.get()]. *)
Inductive Key := K_RETURN | K_BACKSPACE | K_other.

Inductive PyEvent :=
| QUIT
| KEYDOWN (key : Key) (unicode : string)
| MOUSEBUTTONDOWN
| OtherEvent.

(** The classifier's events; [update] reports [None] when neither detector
    fires. *)
Inductive Event := TowerCollapsed | BlockRemoved.

(** ** Operations *)

Section Program.

(** Python's built-in [float()] on a string: [None] stands for
    [ValueError]. *)
Variable py_float : string -> option Q.

(** The value of [time.time()] when the [Score] class statement ran, which
    is when the default of its [timestamp] field was evaluated. *)
Variable import_time : Q.

Definition label : string := "Load_cell output val:".

(** Lines 45 to 51 of [read_weight] on a decoded line: the number read, or
    [None] when [float()] raises. *)
Definition parse_line (raw : string) : option Q :=
  let data := strip raw in
  if contains label data
  then py_float (strip (nth 1 (split label data) EmptyString))
  else py_float data.

Definition SerialHandler_init (port : option (list rx)) : SerialHandler :=
  {| serial := port; last_weight := 0 |}.

(** [SerialHandler.read_weight]: the value returned and the handler after
    the call (one pending read is used up when there is one). *)
Definition read_weight (h : SerialHandler) : Q * SerialHandler :=
  match serial h with
  | None => (0, h)
  | Some [] => (last_weight h, h)
  | Some (r :: rest) =>
      let h' := {| serial := Some rest; last_weight := last_weight h |} in
      match r with
      | Line raw =>
          match parse_line raw with
          | Some v => (v, h')
          | None => (last_weight h, h')
          end
      | Undecodable | PortError => (last_weight h, h')
      end
  end.

(** [SerialHandler.detect_block_removal]. *)
Definition detect_block_removal (h : SerialHandler) : bool * SerialHandler :=
  let (current_weight, h1) := read_weight h in
  if Qltb WEIGHT_THRESHOLD (Qabs (current_weight - last_weight h1))
  then (true, {| serial := serial h1; last_weight := current_weight |})
  else (false, h1).

(** [SerialHandler.detect_tower_collapse]. *)
Definition detect_tower_collapse (h : SerialHandler) : bool * SerialHandler :=
  let (current_weight, h1) := read_weight h in
  let weight_change := current_weight - last_weight h1 in
  if Qltb COLLAPSE_THRESHOLD weight_change
  then (true, {| serial := serial h1; last_weight := current_weight |})
  else (false, h1).

(** [LeaderboardManager.add_score]: the [INSERT] runs inside [with
    self.conn], which commits, or rolls back and lets the error through. *)
Definition add_score (l : LeaderboardManager) (s : Score.t)
  : LeaderboardManager + exn :=
  if io_failure l then inr sqlite3_Error
  else inl {| rows := rows l ++ [s]; io_failure := io_failure l |}.

(** [AudioManager.play_sound]. *)
Definition sounds : list string := ["block_removed"; "success"; "failure"]%string.

Definition play_sound (sound_name : string) (g : AtlasJengaGame) : AtlasJengaGame :=
  if existsb (String.eqb sound_name) sounds
  then mkGame (serial_handler g) (leaderboard g) (audio g ++ [sound_name])
              (state g) (blocks_removed g) (start_time g) (time_remaining g)
              (current_score g) (team_name g) (tower_collapsed g)
  else g.

(** [AtlasJengaGame.reset_game], [now] being the clock it reads. *)
Definition reset_game (now : Q) (g : AtlasJengaGame) : AtlasJengaGame :=
  let (w, h) := read_weight (serial_handler g) in
  {| serial_handler := {| serial := serial h; last_weight := w |};
     leaderboard := leaderboard g;
     audio := audio g;
     state := state g;
     blocks_removed := 0;
     start_time := now;
     time_remaining := GAME_DURATION;
     current_score := 0;
     team_name := EmptyString;
     tower_collapsed := false |}.

(** [AtlasJengaGame.__init__]: [port] is what opening the serial port gave,
    [db] the leaderboard found on disk. *)
Definition init (port : option (list rx)) (db : LeaderboardManager) (now : Q)
  : AtlasJengaGame :=
  reset_game now
    {| serial_handler := SerialHandler_init port;
       leaderboard := db;
       audio := [];
       state := PREGAME;
       blocks_removed := 0;
       start_time := 0;
       time_remaining := 0;
       current_score := 0;
       team_name := EmptyString;
       tower_collapsed := false |}.

(** [AtlasJengaGame.calculate_score].  [time_remaining] is a float, so the
    product and the two sums are float operations, each rounded; the [int]
    [blocks_removed * 100] is converted to a float before it is added. *)
Definition calculate_score (g : AtlasJengaGame) : Z :=
  let speed_bonus := round64 (time_remaining g * 10) in
  let stability_bonus := if (BLOCKS_TO_WIN <=? blocks_removed g)%Z then 100 else 0 in
  py_int (round64 (round64 (speed_bonus + stability_bonus)
                   + round64 (inject_Z (blocks_removed g * 100)))).

(** The [Score] built by the submit branch of [handle_events]: no
    [timestamp] argument is passed, so the field takes the class default. *)
Definition submitted_score (g : AtlasJengaGame) : Score.t :=
  {| Score.team_name := team_name g;
     Score.blocks_removed := blocks_removed g;
     Score.time_remaining := time_remaining g;
     Score.total_score := calculate_score g;
     Score.timestamp := import_time |}.

(** How a call of [handle_events] ends: it returns [running], or an
    exception leaves it. In both cases [g] is the game at that point. *)
Inductive outcome :=
| Returned (running : bool) (g : AtlasJengaGame)
| Raised (e : exn) (g : AtlasJengaGame).

(** [AtlasJengaGame.handle_events] on the events [pygame.event.get()]
    returned; [now] is the clock read by [reset_game]. *)
Fixpoint handle_events (now : Q) (events : list PyEvent) (g : AtlasJengaGame)
  : outcome :=
  match events with
  | [] => Returned true g
  | QUIT :: _ => Returned false g
  | KEYDOWN key unicode :: rest =>
      if GameState_eqb (state g) POSTGAME then
        match key with
        | K_RETURN =>
            match add_score (leaderboard g) (submitted_score g) with
            | inl l => handle_events now rest (set_state PREGAME (set_leaderboard l g))
            | inr e => Raised e g
            end
        | K_BACKSPACE =>
            handle_events now rest (set_team_name (drop_last (team_name g)) g)
        | K_other =>
            handle_events now rest (set_team_name (team_name g ++ unicode) g)
        end
      else handle_events now rest g
  | MOUSEBUTTONDOWN :: rest =>
      if GameState_eqb (state g) PREGAME
      then handle_events now rest (reset_game now (set_state PLAYING g))
      else handle_events now rest g
  | OtherEvent :: rest => handle_events now rest g
  end.

(** [AtlasJengaGame.update], [now] being the clock it reads.  The first
    component reports which detector fired during the call, the second is
    the game after it. *)
Definition update (now : Q) (g : AtlasJengaGame) : option Event * AtlasJengaGame :=
  if GameState_eqb (state g) PLAYING then
    let g1 := set_time_remaining (GAME_DURATION - (now - start_time g)) g in
    let (collapse, h1) := detect_tower_collapse (serial_handler g1) in
    let g2 := set_serial_handler h1 g1 in
    if collapse then
      (Some TowerCollapsed, set_state POSTGAME (play_sound "failure" g2))
    else
      let (removed, h2) := detect_block_removal (serial_handler g2) in
      let g3 := set_serial_handler h2 g2 in
      let g4 :=
        if removed then
          let g' := play_sound "block_removed"
                      (set_blocks_removed (blocks_removed g3 + 1) g3) in
          if (BLOCKS_TO_WIN <=? blocks_removed g')%Z
          then set_state POSTGAME (play_sound "success" g')
          else g'
        else g3 in
      let g5 :=
        if Qle_bool (time_remaining g4) 0
        then set_state POSTGAME (play_sound "failure" g4)
        else g4 in
      (if removed then Some BlockRemoved else None, g5)
  else (None, g).

(** ** The loop *)

(** What the outside world supplies to one turn of the loop of [run]: the
    serial input that arrived since the previous turn, the input events, and
    the clock as read by [handle_events] and by [update]. *)
Record Frame := mkFrame {
  arrivals : list rx;
  events : list PyEvent;
  t_events : Q;
  t_update : Q
}.

(** Serial input reaching an open port. *)
Definition feed (lines : list rx) (g : AtlasJengaGame) : AtlasJengaGame :=
  match serial (serial_handler g) with
  | None => g
  | Some pending =>
      set_serial_handler
        {| serial := Some (pending ++ lines);
           last_weight := last_weight (serial_handler g) |} g
  end.

(** One call of [update] as the loop made it. *)
Record Tick := mkTick {
  before : AtlasJengaGame;
  emitted : option Event;
  after : AtlasJengaGame
}.

(** How [run] stands once the supplied frames are used up. *)
Inductive status :=
| Running (g : AtlasJengaGame)
| Exited (g : AtlasJengaGame)
| Crashed (e : exn) (g : AtlasJengaGame).

(** [AtlasJengaGame.run] over the given frames: the calls of [update] it
    made, in order, and how it stands.  As in the source, the turn in which
    [handle_events] returns [False] still calls [update]. *)
Fixpoint run (frames : list Frame) (g : AtlasJengaGame) : list Tick * status :=
  match frames with
  | [] => ([], Running g)
  | f :: rest =>
      match handle_events (t_events f) (events f) (feed (arrivals f) g) with
      | Raised e g1 => ([], Crashed e g1)
      | Returned running g1 =>
          let (ev, g2) := update (t_update f) g1 in
          let tick := mkTick g1 ev g2 in
          if running
          then let (ticks, st) := run rest g2 in (tick :: ticks, st)
          else ([tick], Exited g2)
      end
  end.

Definition final (st : status) : AtlasJengaGame :=
  match st with
  | Running g | Exited g | Crashed _ g => g
  end.

(** The game an [outcome] carries. *)
Definition outcome_game (o : outcome) : AtlasJengaGame :=
  match o with
  | Returned _ g | Raised _ g => g
  end.

(** ** Predicates used in the statements *)

(** A pending read that cannot give a weight other than [w]: a line that
    parses gives [w]; on anything else [read_weight] falls back on the
    stored weight. *)
Definition reads_as (w : Q) (r : rx) : bool :=
  match r with
  | Line raw =>
      match parse_line raw with
      | Some v => Qeq_bool v w
      | None => true
      end
  | Undecodable | PortError => true
  end.

(** The scale has settled on [w]: it is the stored weight and every pending
    read gives it (with no port the reading is [0.0]). *)
Definition settled (w : Q) (h : SerialHandler) : Prop :=
  last_weight h == w /\
  match serial h with
  | None => w == 0
  | Some pending => forallb (reads_as w) pending = true
  end.

(** The port could not be opened and the stored weight is the initial one. *)
Definition offline (g : AtlasJengaGame) : Prop :=
  serial (serial_handler g) = None /\ last_weight (serial_handler g) = 0.

(** A call of [update] that reported no event and, if it took the game
    from [PLAYING] to [POSTGAME], did so with the time used up. *)
Definition quiet_tick (tk : Tick) : Prop :=
  emitted tk = None /\
  (state (before tk) = PLAYING -> state (after tk) = POSTGAME ->
   time_remaining (after tk) <= 0).


(** ** Scenarios

    Concrete runs used to exercise the statements below. *)

Definition CR : string := String (ascii_of_nat 13) EmptyString.

Definition empty_db : LeaderboardManager := {| rows := []; io_failure := false |}.
Definition broken_db : LeaderboardManager := {| rows := []; io_failure := true |}.

(** A turn of the loop with a mouse click, with serial input only, with key
    presses only. *)
Definition click (t : Q) : Frame := mkFrame [] [MOUSEBUTTONDOWN] t t.
Definition idle (lines : list rx) (t : Q) : Frame := mkFrame lines [] t t.
Definition keys (evs : list PyEvent) (t : Q) : Frame := mkFrame [] evs t t.

(** A game started at 1001 on a scale that showed 100 at start-up. *)
Definition playing_at_100 : AtlasJengaGame :=
  final (snd (run [click 1001]
                (init (Some [Line "Load_cell output val: 100"]) empty_db 1000))).

(** One sample per turn: 102, 97, 107 against the stored 100. *)
Definition one_sample_per_tick : list Frame :=
  [idle [Line "102"] 1002; idle [Line "97"] 1003; idle [Line "107"] 1004].

(** The same game when the scale has moved to 120 and reported it twice,
    and when it has jumped to 140. *)
Definition block_taken : AtlasJengaGame :=
  feed [Line "120"; Line "120"] playing_at_100.

Definition tower_fallen : AtlasJengaGame :=
  feed [Line "Load_cell output val: 140"] playing_at_100.

(** The same game when the scale reports 100 once more and then 140, so
    that the jump of 40 is the second reading of the turn; and when it
    reports 107 once. *)
Definition jump_read_second : AtlasJengaGame :=
  feed [Line "100"; Line "140"] playing_at_100.

Definition lone_sample : AtlasJengaGame :=
  feed [Line "107"] playing_at_100.

(** A game played without a port until the time ran out, one second late. *)
Definition timed_out (db : LeaderboardManager) : AtlasJengaGame :=
  final (snd (run [click 1001; idle [] 1122] (init None db 1000))).

(** Typing a name and submitting it. *)
Definition submit_A : Frame := keys [KEYDOWN K_other "A"; KEYDOWN K_RETURN CR] 1201.

(** A first game with one block removed, ended by the clock and submitted
    under the name A. *)
Definition after_first_game : AtlasJengaGame :=
  final (snd (run [idle [Line "110"; Line "110"] 1002; idle [] 1200; submit_A]
                playing_at_100)).

(** Two games, submitted at 1201 and at 1501. *)
Definition two_submissions : list Frame :=
  [click 1001; idle [] 1200; keys [KEYDOWN K_RETURN CR] 1201;
   click 1300; idle [] 1500; keys [KEYDOWN K_RETURN CR] 1501].

(** A handler that has just received one line. *)
Definition one_line_pending : SerialHandler :=
  {| serial := Some [Line "42"]; last_weight := 0 |}.

(** ** The leaderboard query *)

(** [ORDER BY total_score DESC]: [s] goes in front of the first row that
    does not score more than it.  SQL leaves the order of rows with equal
    scores open; here they keep the order of insertion. *)
Fixpoint insert_by_score (s : Score.t) (sorted : list Score.t) : list Score.t :=
  match sorted with
  | [] => [s]
  | r :: rest =>
      if (Score.total_score r <=? Score.total_score s)%Z
      then s :: sorted
      else r :: insert_by_score s rest
  end.

Fixpoint order_by_total_score_desc (table : list Score.t) : list Score.t :=
  match table with
  | [] => []
  | r :: rest => insert_by_score r (order_by_total_score_desc rest)
  end.

(** [LIMIT ?]: SQLite puts no bound on the rows when the limit is
    negative. *)
Definition sql_limit (limit : Z) (l : list Score.t) : list Score.t :=
  if (limit <? 0)%Z then l else firstn (Z.to_nat limit) l.

(** The integers SQLite stores: binding a Python [int] outside 64 bits
    raises [OverflowError]. *)
Definition sqlite_int64 (n : Z) : bool :=
  ((- 2 ^ 63 <=? n) && (n <? 2 ^ 63))%Z.

(** [LeaderboardManager.get_top_scores]; each row comes back as the [Score]
    that was stored, its timestamp included.  Which exception comes when
    the connection fails and the limit does not fit either depends on where
    the connection fails; the statements below do not depend on it. *)
Definition get_top_scores (l : LeaderboardManager) (limit : Z)
  : list Score.t + exn :=
  if io_failure l then inr sqlite3_Error
  else if sqlite_int64 limit
       then inl (sql_limit limit (order_by_total_score_desc (rows l)))
       else inr OverflowError.

(** ** Rendering *)

Definition WINDOW_WIDTH : Z := 1280.
Definition WINDOW_HEIGHT : Z := 720.

Inductive Font := font_large | font_medium | font_small.

Definition Color : Type := Z * Z * Z.
Definition white : Color := (255, 255, 255)%Z.
Definition red : Color := (255, 0, 0)%Z.
Definition green : Color := (0, 255, 0)%Z.
Definition grey : Color := (200, 200, 200)%Z.

(** One [font.render] followed by [screen.blit]: the text, its colour and
    font, and where its top left corner goes. *)
Record Blit := mkBlit {
  text : string;
  color : Color;
  font : Font;
  left : Z;
  top : Z
}.

(** [get_width()] of the surface a font renders for a text. *)
Variable text_width : Font -> string -> Z.

(** Python's [str()] on an [int], as the f-strings apply it. *)
Definition py_str (n : Z) : string := NilZero.string_of_int (Z.to_int n).

(** The pattern every text of the three screens follows:
    [screen.blit(t, (WINDOW_WIDTH//2 - t.get_width()//2, y))]. *)
Definition centred (f : Font) (txt : string) (c : Color) (y : Z) : Blit :=
  mkBlit txt c f (WINDOW_WIDTH / 2 - text_width f txt / 2)%Z y.

(** The [for i, score in enumerate(top_scores)] loop that ends
    [draw_pregame] and [draw_postgame], from index [i] on. *)
Fixpoint leaderboard_lines (i : Z) (top_scores : list Score.t) : list Blit :=
  match top_scores with
  | [] => []
  | score :: rest =>
      centred font_small
        (py_str (i + 1) ++ ". " ++ Score.team_name score ++ ": "
         ++ py_str (Score.total_score score) ++ " pts ("
         ++ py_str (Score.blocks_removed score) ++ " blocks, "
         ++ py_str (py_int (Score.time_remaining score)) ++ "s left)")
        grey (WINDOW_HEIGHT / 2 + 130 + i * 40)%Z
      :: leaderboard_lines (i + 1) rest
  end.

(** [AtlasJengaGame.draw_pregame]: the texts put on the screen, or the
    exception of the leaderboard query. *)
Definition draw_pregame (g : AtlasJengaGame) : list Blit + exn :=
  let title := centred font_large "Atlas Jenga Game" white (WINDOW_HEIGHT / 3) in
  let start_text := centred font_medium "Click to Start" white (WINDOW_HEIGHT / 2) in
  let leaderboard_title :=
    centred font_medium "Leaderboard" white (WINDOW_HEIGHT / 2 + 80) in
  match get_top_scores (leaderboard g) 5 with
  | inr e => inr e
  | inl top_scores =>
      inl ([title; start_text; leaderboard_title]
           ++ leaderboard_lines 0 top_scores)
  end.

(** [AtlasJengaGame.draw_game]. *)
Definition draw_game (g : AtlasJengaGame) : list Blit :=
  [ centred font_medium
      ("Time: " ++ py_str (py_int (time_remaining g)) ++ "s")
      (if Qle_bool (time_remaining g) 10 then red else white)
      (WINDOW_HEIGHT / 4 + 60);
    centred font_medium
      ("Blocks: " ++ py_str (blocks_removed g) ++ "/" ++ py_str BLOCKS_TO_WIN)
      white (WINDOW_HEIGHT / 4 + 120);
    centred font_medium
      ("Score: " ++ py_str (calculate_score g))
      white (WINDOW_HEIGHT / 4 + 170) ]%Z.

(** [AtlasJengaGame.draw_postgame]. *)
Definition draw_postgame (g : AtlasJengaGame) : list Blit + exn :=
  let result_text :=
    if tower_collapsed g
    then centred font_large "Tower Collapsed!" red (WINDOW_HEIGHT / 4)
    else if (BLOCKS_TO_WIN <=? blocks_removed g)%Z
         then centred font_large "Victory!" green (WINDOW_HEIGHT / 4)
         else centred font_large "Game Over" red (WINDOW_HEIGHT / 4) in
  let final_score :=
    centred font_medium ("Final Score: " ++ py_str (calculate_score g))
      white (WINDOW_HEIGHT / 4 + 60) in
  let name_prompt :=
    centred font_medium ("Enter team name: " ++ team_name g ++ "_")
      white (WINDOW_HEIGHT / 4 + 120) in
  let submit_text :=
    centred font_small "Press ENTER to submit score" grey
      (WINDOW_HEIGHT / 4 + 170) in
  let leaderboard_title :=
    centred font_medium "Leaderboard" white (WINDOW_HEIGHT / 2 + 80) in
  match get_top_scores (leaderboard g) 5 with
  | inr e => inr e
  | inl top_scores =>
      inl ([result_text; final_score; name_prompt; submit_text;
            leaderboard_title]
           ++ leaderboard_lines 0 top_scores)
  end.

(** [AtlasJengaGame.draw]: what is on the screen at [display.flip()]. *)
Definition draw (g : AtlasJengaGame) : list Blit + exn :=
  match state g with
  | PREGAME => draw_pregame g
  | PLAYING => inl (draw_game g)
  | POSTGAME => draw_postgame g
  end.

(** One turn of the loop that reached [display.flip()]. *)
Record Shown := mkShown {
  tick : Tick;
  screen : list Blit
}.

(** [AtlasJengaGame.run] with its call of [draw]: the turns that were
    shown, and how the loop stands.  [run] above is the same loop without
    the rendering. *)
Fixpoint run_drawing (frames : list Frame) (g : AtlasJengaGame)
  : list Shown * status :=
  match frames with
  | [] => ([], Running g)
  | f :: rest =>
      match handle_events (t_events f) (events f) (feed (arrivals f) g) with
      | Raised e g1 => ([], Crashed e g1)
      | Returned running g1 =>
          let (ev, g2) := update (t_update f) g1 in
          match draw g2 with
          | inr e => ([], Crashed e g2)
          | inl blits =>
              let shown := mkShown (mkTick g1 ev g2) blits in
              if running
              then let (more, st) := run_drawing rest g2 in (shown :: more, st)
              else ([shown], Exited g2)
          end
      end
  end.

(** ** Further predicates *)

(** The sounds one call of [update] plays, from the event it reports,
    whether the count reached [BLOCKS_TO_WIN] and whether the time is up. *)
Definition sounds_of_tick (ev : option Event) (won out_of_time : bool)
  : list string :=
  match ev with
  | Some TowerCollapsed => ["failure"]
  | Some BlockRemoved =>
      "block_removed" :: (if won then ["success"] else [])
                      ++ (if out_of_time then ["failure"] else [])
  | None => if out_of_time then ["failure"] else []
  end%string.

(** The pending reads of a handler, none when there is no port. *)
Definition pending_reads (h : SerialHandler) : list rx :=
  match serial h with
  | None => []
  | Some pending => pending
  end.

(** The block counter stays between 0 and [BLOCKS_TO_WIN], and below
    [BLOCKS_TO_WIN] while the game is on. *)
Definition counter_in_range (g : AtlasJengaGame) : Prop :=
  (0 <= blocks_removed g <= BLOCKS_TO_WIN)%Z /\
  (state g = PLAYING -> (blocks_removed g < BLOCKS_TO_WIN)%Z).

(** How many pending reads a call of [update] uses up, from the state it
    found and the event it reported. *)
Definition reads_used (s : GameState) (ev : option Event) : nat :=
  match s, ev with
  | PLAYING, Some TowerCollapsed => 1
  | PLAYING, _ => 2
  | _, _ => 0
  end.

(** Where the lines of the leaderboard go on the screen, top to bottom. *)
Definition leaderboard_tops : list Z := [490; 530; 570; 610; 650]%Z.

(** The headline of the end screen when the collapse flag is down. *)
Definition verdict (g : AtlasJengaGame) : Blit :=
  if (BLOCKS_TO_WIN <=? blocks_removed g)%Z
  then centred font_large "Victory!" green (WINDOW_HEIGHT / 4)
  else centred font_large "Game Over" red (WINDOW_HEIGHT / 4).

(** [a] does not score less than [b]. *)
Definition scores_no_less (a b : Score.t) : Prop :=
  (Score.total_score b <= Score.total_score a)%Z.

(** The number of rows of a table that score at least [n]. *)
Definition scoring_at_least (n : Z) (table : list Score.t) : nat :=
  length (filter (fun r => (n <=? Score.total_score r)%Z) table).

(** Key presses that edit the team name: a character, and backspace
    (whose own [unicode] is not looked at). *)
Definition typed (c : ascii) : PyEvent := KEYDOWN K_other (String c EmptyString).
Definition backspace : PyEvent := KEYDOWN K_BACKSPACE EmptyString.

Definition is_QUIT (ev : PyEvent) : bool :=
  match ev with
  | QUIT => true
  | _ => false
  end.

Definition is_submit (ev : PyEvent) : bool :=
  match ev with
  | KEYDOWN K_RETURN _ => true
  | _ => false
  end.

(** No submit request in any of the frames. *)
Definition no_submit (frames : list Frame) : bool :=
  forallb (fun f => negb (existsb is_submit (events f))) frames.

(** The row a submit request stores for a game when the name reads
    [name]. *)
Definition row_of (name : string) (g : AtlasJengaGame) : Score.t :=
  {| Score.team_name := name;
     Score.blocks_removed := blocks_removed g;
     Score.time_remaining := time_remaining g;
     Score.total_score := calculate_score g;
     Score.timestamp := import_time |}.

(** ** More scenarios *)

(** Turns spent on the end screen: a name typed and corrected, serial input
    still arriving, a stray click. *)
Definition dawdling : list Frame :=
  [keys [KEYDOWN K_other "A"; KEYDOWN K_BACKSPACE ""; KEYDOWN K_other "B"] 1130;
   idle [Line "500"; Line "0"] 1200;
   click 1300].

(** A leaderboard of seven rows, two of them level at the top. *)
Definition sample_row (name : string) (total : Z) : Score.t :=
  {| Score.team_name := name;
     Score.blocks_removed := 3;
     Score.time_remaining := 60;
     Score.total_score := total;
     Score.timestamp := 1000 |}.

Definition sample_table : LeaderboardManager :=
  {| rows := [sample_row "ann" 300; sample_row "bob" 1200;
              sample_row "cat" 500; sample_row "dan" 1200;
              sample_row "eve" 100; sample_row "fay" 800;
              sample_row "gus" 50];
     io_failure := false |}.


(** A fixed-pitch font, for the width of the texts. *)
Definition fixed_pitch (f : Font) (txt : string) : Z :=
  (match f with font_large => 30 | font_medium => 22 | font_small => 15 end
   * Z.of_nat (String.length txt))%Z.

(** A whole game without a port: started, left to time out, a name typed
    and submitted, then a second game started. *)
Definition whole_game : list Frame :=
  [idle [] 1000; click 1001; idle [] 1060; idle [] 1122;
   keys [typed "Z"; KEYDOWN K_RETURN CR] 1130; click 1140].

(** ** Rounding to binary64: it is monotone and keeps the integers below 2^53 *)

Lemma pow2_pos k : 0 < pow2 k.
Proof. apply Qpower_0_lt. reflexivity. Qed.

Lemma pow2_plus a b : pow2 (a + b) == pow2 a * pow2 b.
Proof. apply Qpower_plus. discriminate. Qed.

Lemma pow2_le a b : (a <= b)%Z -> pow2 a <= pow2 b.
Proof. intro H. apply Qpower_le_compat_l; [exact H | discriminate]. Qed.

Lemma pow2_lt a b : (a < b)%Z -> pow2 a < pow2 b.
Proof. intro H. apply Qpower_lt_compat_l; [exact H | reflexivity]. Qed.

Lemma pow2_lt_inv a b : pow2 a < pow2 b -> (a < b)%Z.
Proof. intro H. apply (Qpower_lt_compat_l_inv 2); [exact H | reflexivity]. Qed.

Lemma pow2_cancel e : pow2 (- e) * pow2 e == 1.
Proof. rewrite <- pow2_plus. replace (- e + e)%Z with 0%Z by lia. reflexivity. Qed.

Lemma pow2_Z k : (0 <= k)%Z -> pow2 k == inject_Z (2 ^ k).
Proof. intro H. unfold pow2. rewrite Zpower_Qpower by exact H. reflexivity. Qed.

(** [Qlog2 x] is the integer part of the binary logarithm of a positive
    [x]. *)
Lemma Qlog2_spec (x : Q) : 0 < x -> pow2 (Qlog2 x) <= x /\ x < pow2 (Qlog2 x + 1).
Proof.
  intro P. destruct x as [n d]. unfold Qlog2. cbn [Qnum Qden].
  assert (Hn : (0 < n)%Z) by (unfold Qlt in P; cbn in P; lia).
  set (a := Z.log2 n). set (b := Z.log2 (Zpos d)).
  assert (A0 : (0 <= a)%Z) by apply Z.log2_nonneg.
  assert (B0 : (0 <= b)%Z) by apply Z.log2_nonneg.
  destruct (Z.log2_spec n Hn) as [A1 A2]. fold a in A1, A2.
  destruct (Z.log2_spec (Zpos d) (Pos2Z.is_pos d)) as [B1 B2]. fold b in B1, B2.
  assert (X : n # d == inject_Z n / inject_Z (Zpos d)) by apply Qmake_Qdiv.
  assert (Dp : 0 < inject_Z (Zpos d)) by reflexivity.
  (* the bounds on numerator and denominator, as rationals *)
  assert (QA1 : pow2 a <= inject_Z n) by (rewrite pow2_Z, <- Zle_Qle by lia; lia).
  assert (QA2 : inject_Z n < pow2 (a + 1)) by (rewrite pow2_Z, <- Zlt_Qlt by lia; lia).
  assert (QB1 : pow2 b <= inject_Z (Zpos d)) by (rewrite pow2_Z, <- Zle_Qle by lia; lia).
  assert (QB2 : inject_Z (Zpos d) < pow2 (b + 1)) by (rewrite pow2_Z, <- Zlt_Qlt by lia; lia).
  (* hence on the quotient *)
  assert (Lo : pow2 (a - b - 1) < n # d).
  { rewrite X. apply Qlt_shift_div_l; [exact Dp|].
    apply Qlt_le_trans with (pow2 (a - b - 1) * pow2 (b + 1)).
    - apply Qmult_lt_l; [apply pow2_pos | exact QB2].
    - rewrite <- pow2_plus. replace (a - b - 1 + (b + 1))%Z with a by lia. exact QA1. }
  assert (Hi : n # d < pow2 (a - b + 1)).
  { rewrite X. apply Qlt_shift_div_r; [exact Dp|].
    apply Qlt_le_trans with (pow2 (a + 1)); [exact QA2|].
    replace (a + 1)%Z with (a - b + 1 + b)%Z by lia. rewrite pow2_plus.
    apply Qmult_le_l; [apply pow2_pos | exact QB1]. }
  destruct (Qle_bool (pow2 (a - b)) (n # d)) eqn:E.
  - apply Qle_bool_iff in E. split; assumption.
  - assert (E' : n # d < pow2 (a - b)).
    { apply Qnot_le_lt. intro L. apply Qle_bool_iff in L. congruence. }
    replace (a - b - 1 + 1)%Z with (a - b)%Z by lia.
    split; [apply Qlt_le_weak; exact Lo | exact E'].
Qed.

Lemma Qlog2_monotone (x y : Q) : 0 < x -> x <= y -> (Qlog2 x <= Qlog2 y)%Z.
Proof.
  intros P L. assert (Py : 0 < y) by (eapply Qlt_le_trans; eassumption).
  destruct (Qlog2_spec x P) as [X1 _]. destruct (Qlog2_spec y Py) as [_ Y2].
  assert (H : pow2 (Qlog2 x) < pow2 (Qlog2 y + 1)).
  { eapply Qle_lt_trans; [exact X1|]. eapply Qle_lt_trans; eassumption. }
  apply pow2_lt_inv in H. lia.
Qed.

Lemma round_half_even_bounds (x : Q) :
  (Qfloor x <= round_half_even x <= Qfloor x + 1)%Z.
Proof.
  unfold round_half_even. destruct (_ ?= _); [destruct (Z.even _)| |]; lia.
Qed.

Lemma round_half_even_monotone (x y : Q) :
  x <= y -> (round_half_even x <= round_half_even y)%Z.
Proof.
  intro L. pose proof (Qfloor_resp_le x y L) as F.
  pose proof (round_half_even_bounds x) as Bx.
  pose proof (round_half_even_bounds y) as By.
  destruct (Z.eq_dec (Qfloor x) (Qfloor y)) as [E|N]; [|lia].
  clear Bx By. unfold round_half_even. rewrite <- E.
  destruct (Qcompare_spec (x - inject_Z (Qfloor x)) (1 # 2)) as [Cx|Cx|Cx];
    destruct (Qcompare_spec (y - inject_Z (Qfloor x)) (1 # 2)) as [Cy|Cy|Cy];
    try destruct (Z.even (Qfloor x)); try lia; exfalso; lra.
Qed.

Lemma round_half_even_Z (n : Z) : round_half_even (inject_Z n) = n.
Proof.
  unfold round_half_even. rewrite Qfloor_Z.
  destruct (Qcompare_spec (inject_Z n - inject_Z n) (1 # 2)) as [C|C|C];
    [exfalso; lra | reflexivity | exfalso; lra].
Qed.

Lemma round_half_even_eq (x y : Q) : x == y -> round_half_even x = round_half_even y.
Proof.
  intro E. apply Z.le_antisymm; apply round_half_even_monotone; lra.
Qed.

Lemma round64_magnitude_nonneg (x : Q) : 0 <= x -> 0 <= round64_magnitude x.
Proof.
  intro P. unfold round64_magnitude.
  apply Qmult_le_0_compat; [|apply Qlt_le_weak, pow2_pos].
  change 0 with (inject_Z 0). rewrite <- Zle_Qle.
  rewrite <- (round_half_even_Z 0). apply round_half_even_monotone.
  apply Qmult_le_0_compat; [exact P | apply Qlt_le_weak, pow2_pos].
Qed.

Lemma round64_magnitude_zero (x : Q) : x == 0 -> round64_magnitude x == 0.
Proof.
  intro E. unfold round64_magnitude.
  rewrite (round_half_even_eq _ (inject_Z 0))
    by (set (p := pow2 _); clearbody p; rewrite E; ring).
  rewrite round_half_even_Z. ring.
Qed.

Lemma ulp_exponent_monotone (x y : Q) :
  0 < x -> x <= y -> (ulp_exponent x <= ulp_exponent y)%Z.
Proof.
  intros P L. unfold ulp_exponent. pose proof (Qlog2_monotone x y P L). lia.
Qed.

(** Scaled by its own unit, a positive number is below 2^53; above the
    subnormal range it is at least 2^52. *)
Lemma scaled_below (x : Q) : 0 < x -> x * pow2 (- ulp_exponent x) < pow2 53.
Proof.
  intro P. destruct (Qlog2_spec x P) as [_ H].
  assert (E : pow2 (Qlog2 x + 1) <= pow2 53 * pow2 (ulp_exponent x)).
  { rewrite <- pow2_plus. apply pow2_le. unfold ulp_exponent. lia. }
  apply Qlt_le_trans with (pow2 53 * pow2 (ulp_exponent x) * pow2 (- ulp_exponent x)).
  - apply Qmult_lt_r; [apply pow2_pos|]. eapply Qlt_le_trans; eassumption.
  - rewrite <- Qmult_assoc, (Qmult_comm (pow2 (ulp_exponent x))), pow2_cancel.
    rewrite Qmult_1_r. apply Qle_refl.
Qed.

Lemma scaled_above (x : Q) :
  0 < x -> (-1074 < ulp_exponent x)%Z -> pow2 52 <= x * pow2 (- ulp_exponent x).
Proof.
  intros P N. destruct (Qlog2_spec x P) as [H _].
  assert (E : ulp_exponent x = (Qlog2 x - 52)%Z) by (unfold ulp_exponent in *; lia).
  assert (F : pow2 52 * pow2 (ulp_exponent x) <= x).
  { rewrite <- pow2_plus, E. replace (52 + (Qlog2 x - 52))%Z with (Qlog2 x) by lia.
    exact H. }
  apply Qle_trans with (pow2 52 * pow2 (ulp_exponent x) * pow2 (- ulp_exponent x)).
  - rewrite <- Qmult_assoc, (Qmult_comm (pow2 (ulp_exponent x))), pow2_cancel.
    rewrite Qmult_1_r. apply Qle_refl.
  - apply Qmult_le_compat_r; [exact F | apply Qlt_le_weak, pow2_pos].
Qed.

Lemma round64_magnitude_monotone (x y : Q) :
  0 <= x -> x <= y -> round64_magnitude x <= round64_magnitude y.
Proof.
  intros P L.
  destruct (Qeq_dec x 0) as [Z0|NZ].
  { rewrite (round64_magnitude_zero x Z0). apply round64_magnitude_nonneg.
    eapply Qle_trans; eassumption. }
  assert (Px : 0 < x).
  { apply Qnot_le_lt. intro A. apply NZ. apply Qle_antisym; assumption. }
  assert (Py : 0 < y) by (eapply Qlt_le_trans; eassumption).
  pose proof (ulp_exponent_monotone x y Px L) as E.
  unfold round64_magnitude.
  set (ex := ulp_exponent x) in *. set (ey := ulp_exponent y) in *.
  destruct (Z.eq_dec ex ey) as [Same|Diff].
  - rewrite <- Same. apply Qmult_le_compat_r; [|apply Qlt_le_weak, pow2_pos].
    rewrite <- Zle_Qle. apply round_half_even_monotone.
    apply Qmult_le_compat_r; [exact L | apply Qlt_le_weak, pow2_pos].
  - assert (Lt : (ex + 1 <= ey)%Z) by lia.
    assert (Ux : inject_Z (round_half_even (x * pow2 (- ex))) <= pow2 53).
    { rewrite (pow2_Z 53) by lia. rewrite <- Zle_Qle.
      rewrite <- (round_half_even_Z (2 ^ 53)). apply round_half_even_monotone.
      rewrite <- (pow2_Z 53) by lia. apply Qlt_le_weak, scaled_below. exact Px. }
    assert (Ly : pow2 52 <= inject_Z (round_half_even (y * pow2 (- ey)))).
    { rewrite (pow2_Z 52) by lia. rewrite <- Zle_Qle.
      rewrite <- (round_half_even_Z (2 ^ 52)). apply round_half_even_monotone.
      rewrite <- (pow2_Z 52) by lia. apply scaled_above; [exact Py|].
      unfold ex, ey, ulp_exponent in *. lia. }
    apply Qle_trans with (pow2 53 * pow2 ex).
    + apply Qmult_le_compat_r; [exact Ux | apply Qlt_le_weak, pow2_pos].
    + apply Qle_trans with (pow2 52 * pow2 ey).
      * rewrite <- !pow2_plus. apply pow2_le. lia.
      * apply Qmult_le_compat_r; [exact Ly | apply Qlt_le_weak, pow2_pos].
Qed.

Lemma round64_magnitude_Z (n : Z) :
  (0 <= n < 2 ^ 53)%Z -> round64_magnitude (inject_Z n) == inject_Z n.
Proof.
  intros [N0 N1]. destruct (Z.eq_dec n 0) as [->|NZ].
  { apply round64_magnitude_zero. reflexivity. }
  assert (P : 0 < inject_Z n) by (change 0 with (inject_Z 0); rewrite <- Zlt_Qlt; lia).
  destruct (Qlog2_spec _ P) as [H _].
  assert (L : (Qlog2 (inject_Z n) < 53)%Z).
  { apply pow2_lt_inv. eapply Qle_lt_trans; [exact H|].
    rewrite (pow2_Z 53) by lia. rewrite <- Zlt_Qlt. exact N1. }
  unfold round64_magnitude. set (e := ulp_exponent (inject_Z n)).
  assert (E : (e <= 0)%Z) by (unfold e, ulp_exponent; lia).
  assert (S : inject_Z n * pow2 (- e) == inject_Z (n * 2 ^ (- e))).
  { rewrite inject_Z_mult, (pow2_Z (- e)) by lia. reflexivity. }
  rewrite (round_half_even_eq _ _ S), round_half_even_Z.
  rewrite <- S, <- Qmult_assoc, pow2_cancel. ring.
Qed.

Lemma round64_monotone (x y : Q) : x <= y -> round64 x <= round64 y.
Proof.
  intro L. unfold round64.
  destruct (Qle_bool 0 x) eqn:Ex; destruct (Qle_bool 0 y) eqn:Ey.
  - apply Qle_bool_iff in Ex. apply round64_magnitude_monotone; assumption.
  - apply Qle_bool_iff in Ex. exfalso.
    assert (A : 0 <= y) by (eapply Qle_trans; eassumption).
    apply Qle_bool_iff in A. congruence.
  - apply Qle_bool_iff in Ey.
    assert (Nx : 0 <= - x).
    { destruct (Qlt_le_dec x 0) as [A|A]; [lra|]. apply Qle_bool_iff in A. congruence. }
    pose proof (round64_magnitude_nonneg _ Nx).
    pose proof (round64_magnitude_nonneg _ Ey). lra.
  - assert (Ny : 0 <= - y).
    { destruct (Qlt_le_dec y 0) as [A|A]; [lra|]. apply Qle_bool_iff in A. congruence. }
    assert (M : round64_magnitude (- y) <= round64_magnitude (- x))
      by (apply round64_magnitude_monotone; [exact Ny | lra]).
    lra.
Qed.

Lemma round64_Z (n : Z) :
  (- 2 ^ 53 < n < 2 ^ 53)%Z -> round64 (inject_Z n) == inject_Z n.
Proof.
  intros [N0 N1]. unfold round64.
  destruct (Qle_bool 0 (inject_Z n)) eqn:E.
  - apply Qle_bool_iff in E. change 0 with (inject_Z 0) in E. rewrite <- Zle_Qle in E.
    apply round64_magnitude_Z. lia.
  - assert (Neg : (n < 0)%Z).
    { destruct (Z.lt_ge_cases n 0) as [A|A]; [exact A|].
      rewrite Zle_Qle in A. apply Qle_bool_iff in A. change (inject_Z 0) with 0 in A.
      congruence. }
    rewrite <- inject_Z_opp, round64_magnitude_Z by lia.
    rewrite inject_Z_opp. ring.
Qed.

Lemma round64_nonneg (x : Q) : 0 <= x -> 0 <= round64 x.
Proof.
  intro P. rewrite <- (round64_Z 0) by lia. apply round64_monotone. exact P.
Qed.

Lemma round64_eq (x y : Q) : x == y -> round64 x == round64 y.
Proof.
  intro E. apply Qle_antisym; apply round64_monotone; lra.
Qed.

(** ** Basic facts *)

Lemma Qltb_true (x y : Q) : Qltb x y = true <-> x < y.
Proof.
  unfold Qltb. rewrite negb_true_iff. split; intro H.
  - apply Qnot_le_lt. intro L. apply Qle_bool_iff in L. congruence.
  - destruct (Qle_bool y x) eqn:E; [|reflexivity].
    apply Qle_bool_iff in E. exfalso. exact (Qlt_not_le _ _ H E).
Qed.

Lemma Qltb_false (x y : Q) : Qltb x y = false <-> y <= x.
Proof.
  unfold Qltb. rewrite negb_false_iff. apply Qle_bool_iff.
Qed.

Lemma GameState_eqb_eq (a b : GameState) : GameState_eqb a b = true <-> a = b.
Proof. destruct a, b; simpl; split; congruence. Qed.

Lemma GameState_eqb_refl (a : GameState) : GameState_eqb a a = true.
Proof. destruct a; reflexivity. Qed.

(** [split] always returns at least one piece, and at least two when the
    separator occurs: the index [1] that [read_weight] takes after testing
    [in] is always there, so no [IndexError] can leave it. *)
Lemma split_aux_nonempty (sep : string) (s : string) :
  forall skip cur, (1 <= length (split_aux sep skip cur s))%nat.
Proof.
  induction s as [|c s IH]; intros skip cur; cbn [split_aux].
  - cbn. lia.
  - destruct skip; [|apply IH].
    destruct (String.prefix sep (String c s)); [cbn; lia | apply IH].
Qed.

Lemma contains_split (sep s : string) :
  sep <> EmptyString ->
  contains sep s = true ->
  (2 <= length (split sep s))%nat.
Proof.
  intros NE. unfold split. generalize EmptyString as cur.
  induction s as [|c s IH]; intros cur C.
  - destruct sep; [congruence | discriminate].
  - cbn [split_aux]. cbn [contains] in C.
    destruct (String.prefix sep (String c s)).
    + cbn [length].
      pose proof (split_aux_nonempty sep s (String.length sep - 1) EmptyString).
      lia.
    + apply IH. exact C.
Qed.

Lemma parse_line_labelled (raw : string) :
  contains label (strip raw) = true ->
  exists before value rest,
    split label (strip raw) = before :: value :: rest /\
    parse_line raw = py_float (strip value).
Proof.
  intro C. unfold parse_line. rewrite C.
  assert (NE : label <> EmptyString) by discriminate.
  pose proof (contains_split label (strip raw) NE C) as L.
  destruct (split label (strip raw)) as [|a [|b rest]]; cbn in L; try lia.
  exists a, b, rest. split; reflexivity.
Qed.

(** [read_weight] never assigns [last_weight]. *)
Lemma read_weight_last_weight (h : SerialHandler) :
  last_weight (snd (read_weight h)) = last_weight h.
Proof.
  unfold read_weight. destruct h as [[[|[raw| |] rest]|] lw]; simpl; try reflexivity.
  destruct (parse_line raw); reflexivity.
Qed.

(** With no port, [read_weight] returns [0.0] and touches nothing. *)
Lemma read_weight_no_port (h : SerialHandler) :
  serial h = None -> read_weight h = (0, h).
Proof. unfold read_weight. intros ->. reflexivity. Qed.

(** With a port and nothing pending it returns the stored weight. *)
Lemma read_weight_idle (h : SerialHandler) :
  serial h = Some [] -> read_weight h = (last_weight h, h).
Proof. unfold read_weight. intros ->. reflexivity. Qed.

(** The two detectors, by cases on the reading they took. *)
Lemma detect_tower_collapse_cases (h : SerialHandler) :
  let w := fst (read_weight h) in
  let h1 := snd (read_weight h) in
  (COLLAPSE_THRESHOLD < w - last_weight h /\
   detect_tower_collapse h = (true, {| serial := serial h1; last_weight := w |}))
  \/
  (w - last_weight h <= COLLAPSE_THRESHOLD /\
   detect_tower_collapse h = (false, h1)).
Proof.
  intros w h1. unfold detect_tower_collapse.
  pose proof (read_weight_last_weight h) as L. subst w h1.
  destruct (read_weight h) as [w h1]. cbn [fst snd] in *. rewrite L.
  destruct (Qltb COLLAPSE_THRESHOLD (w - last_weight h)) eqn:E.
  - left. split; [apply Qltb_true; exact E | reflexivity].
  - right. split; [apply Qltb_false; exact E | reflexivity].
Qed.

Lemma detect_block_removal_cases (h : SerialHandler) :
  let w := fst (read_weight h) in
  let h1 := snd (read_weight h) in
  (WEIGHT_THRESHOLD < Qabs (w - last_weight h) /\
   detect_block_removal h = (true, {| serial := serial h1; last_weight := w |}))
  \/
  (Qabs (w - last_weight h) <= WEIGHT_THRESHOLD /\
   detect_block_removal h = (false, h1)).
Proof.
  intros w h1. unfold detect_block_removal.
  pose proof (read_weight_last_weight h) as L. subst w h1.
  destruct (read_weight h) as [w h1]. cbn [fst snd] in *. rewrite L.
  destruct (Qltb WEIGHT_THRESHOLD (Qabs (w - last_weight h))) eqn:E.
  - left. split; [apply Qltb_true; exact E | reflexivity].
  - right. split; [apply Qltb_false; exact E | reflexivity].
Qed.

(** [update] outside [PLAYING] does nothing. *)
Lemma update_not_playing (now : Q) (g : AtlasJengaGame) :
  state g <> PLAYING -> update now g = (None, g).
Proof.
  intro H. unfold update.
  destruct (GameState_eqb (state g) PLAYING) eqn:E; [|reflexivity].
  apply GameState_eqb_eq in E. contradiction.
Qed.

(** The event [update] reports, from the two readings of the call. *)
Lemma update_event (now : Q) (g : AtlasJengaGame) :
  state g = PLAYING ->
  let h := serial_handler g in
  let w1 := fst (read_weight h) in
  let h1 := snd (read_weight h) in
  let w2 := fst (read_weight h1) in
  fst (update now g) =
    if Qltb COLLAPSE_THRESHOLD (w1 - last_weight h) then Some TowerCollapsed
    else if Qltb WEIGHT_THRESHOLD (Qabs (w2 - last_weight h)) then Some BlockRemoved
    else None.
Proof.
  intros P h w1 h1 w2. unfold update. rewrite P.
  cbn [GameState_eqb serial_handler set_time_remaining set_serial_handler].
  fold h.
  destruct (detect_tower_collapse_cases h) as [[C ->]|[C ->]]; fold w1 h1 in C |- *.
  - apply Qltb_true in C. rewrite C. reflexivity.
  - apply Qltb_false in C. rewrite C.
    pose proof (read_weight_last_weight h) as L. fold h1 in L.
    destruct (detect_block_removal_cases h1) as [[B ->]|[B ->]];
      fold w2 in B; rewrite L in B.
    + apply Qltb_true in B. rewrite B. reflexivity.
    + apply Qltb_false in B. rewrite B. reflexivity.
Qed.

(** What the setters and [play_sound] leave alone. *)
Lemma play_sound_fields (name : string) (g : AtlasJengaGame) :
  serial_handler (play_sound name g) = serial_handler g /\
  leaderboard (play_sound name g) = leaderboard g /\
  state (play_sound name g) = state g /\
  blocks_removed (play_sound name g) = blocks_removed g /\
  start_time (play_sound name g) = start_time g /\
  time_remaining (play_sound name g) = time_remaining g /\
  team_name (play_sound name g) = team_name g /\
  tower_collapsed (play_sound name g) = tower_collapsed g.
Proof.
  unfold play_sound. destruct (existsb _ _); simpl; repeat split; reflexivity.
Qed.

Ltac sound_fields :=
  repeat match goal with
  | |- context [serial_handler (play_sound ?n ?g)] =>
      rewrite (proj1 (play_sound_fields n g))
  | |- context [leaderboard (play_sound ?n ?g)] =>
      rewrite (proj1 (proj2 (play_sound_fields n g)))
  | |- context [state (play_sound ?n ?g)] =>
      rewrite (proj1 (proj2 (proj2 (play_sound_fields n g))))
  | |- context [blocks_removed (play_sound ?n ?g)] =>
      rewrite (proj1 (proj2 (proj2 (proj2 (play_sound_fields n g)))))
  | |- context [start_time (play_sound ?n ?g)] =>
      rewrite (proj1 (proj2 (proj2 (proj2 (proj2 (play_sound_fields n g))))))
  | |- context [time_remaining (play_sound ?n ?g)] =>
      rewrite (proj1 (proj2 (proj2 (proj2 (proj2 (proj2 (play_sound_fields n g)))))))
  | |- context [team_name (play_sound ?n ?g)] =>
      rewrite (proj1 (proj2 (proj2 (proj2 (proj2 (proj2 (proj2 (play_sound_fields n g))))))))
  | |- context [tower_collapsed (play_sound ?n ?g)] =>
      rewrite (proj2 (proj2 (proj2 (proj2 (proj2 (proj2 (proj2 (play_sound_fields n g))))))))
  end.

(** Unfolds [update] in [PLAYING] and splits on what the detectors and the
    two later tests returned. *)
Ltac update_cases :=
  unfold update;
  match goal with
  | P : state ?g = PLAYING |- _ => rewrite P
  end;
  cbn [GameState_eqb serial_handler set_time_remaining set_serial_handler];
  destruct (detect_tower_collapse _) as [[|] ?h1];
  [| destruct (detect_block_removal _) as [[|] ?h2];
     [ destruct (BLOCKS_TO_WIN <=? _)%Z eqn:?Hwin |];
     destruct (Qle_bool _ _) eqn:?Hout ];
  cbn [fst snd]; sound_fields;
  cbn [serial_handler leaderboard state blocks_removed start_time
       time_remaining team_name tower_collapsed
       set_state set_blocks_removed set_serial_handler set_time_remaining];
  sound_fields;
  cbn [serial_handler leaderboard state blocks_removed start_time
       time_remaining team_name tower_collapsed
       set_state set_blocks_removed set_serial_handler set_time_remaining].

(** [update] assigns neither the leaderboard, the team name, the start time
    nor the collapse flag. *)
Lemma update_untouched (now : Q) (g : AtlasJengaGame) :
  let g' := snd (update now g) in
  leaderboard g' = leaderboard g /\
  team_name g' = team_name g /\
  start_time g' = start_time g /\
  tower_collapsed g' = tower_collapsed g.
Proof.
  destruct (GameState_eqb (state g) PLAYING) eqn:E.
  - apply GameState_eqb_eq in E. cbv zeta. update_cases; repeat split; reflexivity.
  - unfold update. rewrite E. simpl. repeat split; reflexivity.
Qed.

(** ** The classifier *)


(** The handler [update] leaves, from the two readings of the call. *)
Lemma update_handler (now : Q) (g : AtlasJengaGame) :
  state g = PLAYING ->
  let h := serial_handler g in
  let w1 := fst (read_weight h) in
  let h1 := snd (read_weight h) in
  let w2 := fst (read_weight h1) in
  let h2 := snd (read_weight h1) in
  serial_handler (snd (update now g)) =
    if Qltb COLLAPSE_THRESHOLD (w1 - last_weight h)
    then {| serial := serial h1; last_weight := w1 |}
    else if Qltb WEIGHT_THRESHOLD (Qabs (w2 - last_weight h))
    then {| serial := serial h2; last_weight := w2 |}
    else h2.
Proof.
  intros P h w1 h1 w2 h2. unfold update. rewrite P.
  cbn [GameState_eqb serial_handler set_time_remaining set_serial_handler].
  fold h.
  destruct (detect_tower_collapse_cases h) as [[C ->]|[C ->]]; fold w1 h1 in C |- *.
  - apply Qltb_true in C. rewrite C. cbn [snd]. sound_fields. reflexivity.
  - apply Qltb_false in C. rewrite C.
    pose proof (read_weight_last_weight h) as L. fold h1 in L.
    destruct (detect_block_removal_cases h1) as [[B ->]|[B ->]];
      fold w2 h2 in B |- *; rewrite L in B.
    + apply Qltb_true in B. rewrite B.
      destruct (BLOCKS_TO_WIN <=? _)%Z; destruct (Qle_bool _ _);
        cbn [snd]; sound_fields; cbn [serial_handler set_state]; sound_fields;
        reflexivity.
    + apply Qltb_false in B. rewrite B.
      destruct (Qle_bool _ _); cbn [snd]; sound_fields; reflexivity.
Qed.

Lemma read_weight_serial_none (h : SerialHandler) :
  serial (snd (read_weight h)) = None <-> serial h = None.
Proof.
  unfold read_weight. destruct h as [[[|[raw| |] rest]|] lw]; cbn [serial snd];
    try destruct (parse_line raw); cbn [serial snd]; split; congruence.
Qed.

(** Reading a settled scale gives the settled weight and leaves it settled. *)
Lemma settled_read (w : Q) (h : SerialHandler) :
  settled w h ->
  fst (read_weight h) == w /\ settled w (snd (read_weight h)).
Proof.
  unfold settled, read_weight.
  destruct h as [[[|r rest]|] lw]; cbn [serial last_weight]; intros [L S].
  - cbn [fst snd serial last_weight]. auto.
  - cbn [forallb] in S. apply andb_true_iff in S. destruct S as [R S].
    destruct r as [raw| |]; cbn [reads_as] in R.
    + destruct (parse_line raw) as [v|]; cbn [fst snd serial last_weight].
      * apply Qeq_bool_iff in R. auto.
      * auto.
    + cbn [fst snd serial last_weight]. auto.
    + cbn [fst snd serial last_weight]. auto.
  - cbn [fst snd serial last_weight]. split; [symmetry; exact S | auto].
Qed.

(** On a settled scale [update] reports nothing and the scale stays
    settled. *)
Lemma settled_update (now w : Q) (g : AtlasJengaGame) :
  settled w (serial_handler g) ->
  fst (update now g) = None /\ settled w (serial_handler (snd (update now g))).
Proof.
  intro S.
  destruct (GameState_eqb (state g) PLAYING) eqn:E.
  - apply GameState_eqb_eq in E.
    rewrite (update_event now g E), (update_handler now g E).
    destruct (settled_read w _ S) as [R1 S1].
    destruct (settled_read w _ S1) as [R2 S2].
    destruct S as [L _].
    assert (C : Qltb COLLAPSE_THRESHOLD
                  (fst (read_weight (serial_handler g))
                   - last_weight (serial_handler g)) = false).
    { apply Qltb_false. unfold COLLAPSE_THRESHOLD. lra. }
    assert (B : Qltb WEIGHT_THRESHOLD
                  (Qabs (fst (read_weight (snd (read_weight (serial_handler g))))
                         - last_weight (serial_handler g))) = false).
    { apply Qltb_false. apply Qabs_Qle_condition.
      unfold WEIGHT_THRESHOLD. split; lra. }
    rewrite C, B. split; [reflexivity | exact S2].
  - unfold update. rewrite E. split; [reflexivity | exact S].
Qed.

Lemma offline_settled (g : AtlasJengaGame) :
  offline g -> settled 0 (serial_handler g).
Proof.
  intros [N L]. unfold settled. rewrite N, L. split; reflexivity.
Qed.

(** C7.  When a call of [update] reports an event, the stored previous
    weight after the call is the weight read by the detector that fired.
    From then on, whatever serial input arrives, as long as every pending
    read gives that same weight, the next call of [update] reports no
    event. *)
Theorem baseline_follows_event (now : Q) (g : AtlasJengaGame) (e : Event) :
  fst (update now g) = Some e ->
  let h := serial_handler g in
  let g' := snd (update now g) in
  let w := match e with
           | TowerCollapsed => fst (read_weight h)
           | BlockRemoved => fst (read_weight (snd (read_weight h)))
           end in
  last_weight (serial_handler g') = w /\
  forall (now' : Q) (lines : list rx),
    (forall pending,
        serial (serial_handler (feed lines g')) = Some pending ->
        forallb (reads_as w) pending = true) ->
    fst (update now' (feed lines g')) = None.
Proof.
  intros Ev h g' w.
  assert (P : state g = PLAYING).
  { destruct (GameState_eqb (state g) PLAYING) eqn:E.
    - apply GameState_eqb_eq; exact E.
    - unfold update in Ev. rewrite E in Ev. discriminate. }
  assert (Hh : serial_handler g' =
               {| serial := serial (serial_handler g'); last_weight := w |} /\
               (serial (serial_handler g') = None -> w = 0)).
  { unfold g'. rewrite (update_handler now g P).
    rewrite (update_event now g P) in Ev. fold h in Ev |- *.
    destruct (Qltb COLLAPSE_THRESHOLD _).
    - injection Ev as <-. split; [reflexivity|].
      cbn [serial]. intro N. apply (proj1 (read_weight_serial_none _)) in N.
      unfold w. rewrite (read_weight_no_port h N). reflexivity.
    - destruct (Qltb WEIGHT_THRESHOLD _); [|discriminate].
      injection Ev as <-. split; [reflexivity|].
      cbn [serial]. intro N.
      apply (proj1 (read_weight_serial_none _)) in N.
      pose proof (proj1 (read_weight_serial_none _) N) as N0.
      unfold w. rewrite (read_weight_no_port h N0).
      cbn [snd]. rewrite (read_weight_no_port h N0). reflexivity. }
  destruct Hh as [Hh Hnone]. split.
  - rewrite Hh. reflexivity.
  - intros now' lines Hp. apply (settled_update now' w).
    unfold settled, feed in *.
    destruct (serial (serial_handler g')) as [pending|] eqn:Sg.
    + cbn [serial_handler set_serial_handler serial last_weight] in *.
      split; [rewrite Hh; reflexivity | apply Hp; reflexivity].
    + rewrite Sg. split; [rewrite Hh; reflexivity |].
      rewrite (Hnone eq_refl). reflexivity.
Qed.

(** ** The event handler *)

(** [handle_events] goes through the events in order: a batch that follows
    a prefix handled without leaving is handled from the game the prefix
    left. *)
Lemma handle_events_app (now : Q) (pre evs : list PyEvent) (g : AtlasJengaGame) :
  handle_events now (pre ++ evs) g =
    match handle_events now pre g with
    | Returned true g1 => handle_events now evs g1
    | o => o
    end.
Proof.
  revert g. induction pre as [|ev pre IH]; intro g; [reflexivity|].
  destruct ev as [|key unicode| |]; cbn [app handle_events].
  - reflexivity.
  - destruct (GameState_eqb (state g) POSTGAME); [|apply IH].
    destruct key; [|apply IH|apply IH].
    destruct (add_score _ _); [apply IH | reflexivity].
  - destruct (GameState_eqb (state g) PREGAME); apply IH.
  - apply IH.
Qed.

(** During [PLAYING] no input event changes anything. *)
Lemma handle_events_playing (now : Q) (evs : list PyEvent) (g : AtlasJengaGame) :
  state g = PLAYING ->
  exists running, handle_events now evs g = Returned running g.
Proof.
  intro P. induction evs as [|ev evs IH]; cbn [handle_events].
  - exists true. reflexivity.
  - destruct ev as [|key unicode| |]; rewrite ?P; cbn [GameState_eqb]; eauto.
Qed.

(** C6.  A mouse click handled while the state is [PREGAME] (whatever was
    handled before it in the same batch, whatever follows it, and whatever
    the previous game left in the counters) makes [handle_events] return
    with the state [PLAYING], [blocks_removed = 0],
    [time_remaining = GAME_DURATION], [tower_collapsed = False],
    [team_name = ""] and [start_time] the instant of the click. *)
Theorem start_request_resets
  (now : Q) (pre rest : list PyEvent) (g g0 : AtlasJengaGame) :
  handle_events now pre g = Returned true g0 ->
  state g0 = PREGAME ->
  exists running g',
    handle_events now (pre ++ MOUSEBUTTONDOWN :: rest) g = Returned running g' /\
    state g' = PLAYING /\
    blocks_removed g' = 0%Z /\
    time_remaining g' = GAME_DURATION /\
    tower_collapsed g' = false /\
    team_name g' = EmptyString /\
    start_time g' = now.
Proof.
  intros Hpre S. rewrite handle_events_app, Hpre.
  cbn [handle_events]. rewrite S. cbn [GameState_eqb].
  set (g1 := reset_game now (set_state PLAYING g0)).
  assert (F : state g1 = PLAYING /\ blocks_removed g1 = 0%Z /\
              time_remaining g1 = GAME_DURATION /\ tower_collapsed g1 = false /\
              team_name g1 = EmptyString /\ start_time g1 = now).
  { unfold g1, reset_game. destruct (read_weight _) as [w h].
    cbn. repeat split; reflexivity. }
  destruct (handle_events_playing now rest g1 (proj1 F)) as [running ->].
  exists running, g1. split; [reflexivity | exact F].
Qed.

(** C9 (as the code has it).  When a submit request handled in [POSTGAME]
    meets a failing leaderboard, [handle_events] does not return: the error
    leaves it as an exception, with the game exactly as it was when the
    request was taken up (the counters, the team name, the state [POSTGAME]
    and the table are the same).  [run] does not catch the exception: the
    loop stops in that turn, before [update] is called. *)
Theorem submit_failure_propagates
  (f : Frame) (later : list Frame) (g g0 : AtlasJengaGame)
  (pre rest : list PyEvent) (unicode : string) :
  events f = pre ++ KEYDOWN K_RETURN unicode :: rest ->
  handle_events (t_events f) pre (feed (arrivals f) g) = Returned true g0 ->
  state g0 = POSTGAME ->
  io_failure (leaderboard g0) = true ->
  handle_events (t_events f) (events f) (feed (arrivals f) g)
    = Raised sqlite3_Error g0 /\
  run (f :: later) g = ([], Crashed sqlite3_Error g0).
Proof.
  intros Ev Hpre S F.
  assert (H : handle_events (t_events f) (events f) (feed (arrivals f) g)
              = Raised sqlite3_Error g0).
  { rewrite Ev, handle_events_app, Hpre. cbn [handle_events].
    rewrite S. cbn [GameState_eqb]. unfold add_score. rewrite F. reflexivity. }
  split; [exact H|]. cbn [run]. rewrite H. reflexivity.
Qed.

(** ** Timestamps of submitted scores *)

Lemma reset_game_leaderboard (now : Q) (g : AtlasJengaGame) :
  leaderboard (reset_game now g) = leaderboard g.
Proof. unfold reset_game. destruct (read_weight _). reflexivity. Qed.

Lemma feed_leaderboard (lines : list rx) (g : AtlasJengaGame) :
  leaderboard (feed lines g) = leaderboard g.
Proof. unfold feed. destruct (serial _); reflexivity. Qed.

(** Rows are only appended, and every row [handle_events] appends carries
    the class default as its timestamp. *)
Lemma handle_events_rows (now : Q) (evs : list PyEvent) (g : AtlasJengaGame) :
  exists added,
    rows (leaderboard (outcome_game (handle_events now evs g)))
      = rows (leaderboard g) ++ added /\
    Forall (fun s => Score.timestamp s = import_time) added.
Proof.
  revert g. induction evs as [|ev evs IH]; intro g.
  - exists []. cbn. rewrite app_nil_r. auto.
  - destruct ev as [|key unicode| |]; cbn [handle_events].
    + exists []. cbn. rewrite app_nil_r. auto.
    + destruct (GameState_eqb (state g) POSTGAME); [|apply IH].
      destruct key;
        [| exact (IH (set_team_name (drop_last (team_name g)) g))
         | exact (IH (set_team_name (team_name g ++ unicode) g))].
      unfold add_score. destruct (io_failure (leaderboard g)).
      * exists []. cbn. rewrite app_nil_r. auto.
      * destruct (IH (set_state PREGAME
                        (set_leaderboard
                           {| rows := rows (leaderboard g) ++ [submitted_score g];
                              io_failure := false |} g)))
          as [added [E A]].
        exists (submitted_score g :: added). split.
        -- rewrite E. cbn. rewrite <- app_assoc. reflexivity.
        -- constructor; [reflexivity | exact A].
    + destruct (GameState_eqb (state g) PREGAME); [|apply IH].
      destruct (IH (reset_game now (set_state PLAYING g))) as [added [E A]].
      exists added. split; [|exact A].
      rewrite E, reset_game_leaderboard. reflexivity.
    + apply IH.
Qed.

Lemma run_rows (frames : list Frame) (g : AtlasJengaGame) :
  exists added,
    rows (leaderboard (final (snd (run frames g))))
      = rows (leaderboard g) ++ added /\
    Forall (fun s => Score.timestamp s = import_time) added.
Proof.
  revert g. induction frames as [|f frames IH]; intro g.
  - exists []. cbn. rewrite app_nil_r. auto.
  - cbn [run].
    destruct (handle_events_rows (t_events f) (events f) (feed (arrivals f) g))
      as [a1 [E1 A1]].
    rewrite feed_leaderboard in E1.
    destruct (handle_events _ _ _) as [running g1|e g1]; cbn [outcome_game] in E1.
    + pose proof (update_untouched (t_update f) g1) as U. cbv zeta in U.
      destruct U as [U _].
      destruct (update (t_update f) g1) as [ev g2]. cbn [snd] in U.
      destruct running.
      * destruct (IH g2) as [a2 [E2 A2]].
        destruct (run frames g2) as [ticks st]. cbn [snd] in *.
        exists (a1 ++ a2). split.
        -- rewrite E2, U, E1, app_assoc. reflexivity.
        -- apply Forall_app. auto.
      * exists a1. cbn. rewrite U. auto.
    + exists a1. cbn. auto.
Qed.

(** C10.  Over any run of the loop, the rows added to the leaderboard all
    carry the instant at which the [Score] class was defined as their
    timestamp, whatever the clock showed when each was submitted: any two
    of them have the same timestamp. *)
Theorem submitted_timestamps_identical (frames : list Frame) (g : AtlasJengaGame) :
  exists added,
    rows (leaderboard (final (snd (run frames g))))
      = rows (leaderboard g) ++ added /\
    Forall (fun s => Score.timestamp s = import_time) added /\
    forall s1 s2, In s1 added -> In s2 added ->
                  Score.timestamp s1 = Score.timestamp s2.
Proof.
  destruct (run_rows frames g) as [added [E A]].
  exists added. repeat split; [exact E | exact A |].
  intros s1 s2 I1 I2. rewrite Forall_forall in A.
  rewrite (A s1 I1), (A s2 I2). reflexivity.
Qed.

(** ** A port that could not be opened *)

Lemma offline_init (db : LeaderboardManager) (t0 : Q) : offline (init None db t0).
Proof. split; reflexivity. Qed.

Lemma offline_feed (lines : list rx) (g : AtlasJengaGame) :
  offline g -> feed lines g = g.
Proof. intros [N _]. unfold feed. rewrite N. reflexivity. Qed.

Lemma offline_reset_game (now : Q) (g : AtlasJengaGame) :
  offline g -> offline (reset_game now g).
Proof.
  intros [N L]. unfold reset_game.
  rewrite (read_weight_no_port _ N). split; [exact N | reflexivity].
Qed.

Lemma offline_handle_events (now : Q) (evs : list PyEvent) (g : AtlasJengaGame) :
  offline g -> offline (outcome_game (handle_events now evs g)).
Proof.
  revert g. induction evs as [|ev evs IH]; intros g O; [exact O|].
  destruct ev as [|key unicode| |]; cbn [handle_events].
  - exact O.
  - destruct (GameState_eqb (state g) POSTGAME); [|apply IH; exact O].
    destruct key; [|apply IH; exact O|apply IH; exact O].
    destruct (add_score _ _); [apply IH; exact O | exact O].
  - destruct (GameState_eqb (state g) PREGAME); apply IH;
      [apply offline_reset_game|]; exact O.
  - apply IH; exact O.
Qed.

Lemma offline_update (now : Q) (g : AtlasJengaGame) :
  offline g ->
  fst (update now g) = None /\ offline (snd (update now g)).
Proof.
  intro O. split.
  - apply (settled_update now 0 g (offline_settled g O)).
  - destruct (GameState_eqb (state g) PLAYING) eqn:E.
    + apply GameState_eqb_eq in E. destruct O as [N L].
      unfold offline. rewrite (update_handler now g E).
      rewrite (read_weight_no_port _ N). cbn [fst snd].
      rewrite (read_weight_no_port _ N). cbn [fst snd]. rewrite L.
      cbn. split; [exact N | exact L].
    + unfold update. rewrite E. exact O.
Qed.

(** A call of [update] that reports no event moves the game from [PLAYING]
    to [POSTGAME] only when the remaining time it computed is used up. *)
Lemma update_timeout_only (now : Q) (g : AtlasJengaGame) :
  state g = PLAYING ->
  fst (update now g) = None ->
  state (snd (update now g)) = POSTGAME ->
  time_remaining (snd (update now g)) <= 0.
Proof.
  intro P. update_cases; try discriminate; intros _ S.
  - apply Qle_bool_iff. exact Hout.
  - rewrite P in S. discriminate.
Qed.

Lemma run_offline (frames : list Frame) (g : AtlasJengaGame) :
  offline g ->
  Forall quiet_tick (fst (run frames g)) /\ offline (final (snd (run frames g))).
Proof.
  revert g. induction frames as [|f frames IH]; intros g O.
  - cbn. split; [constructor | exact O].
  - cbn [run]. rewrite (offline_feed _ _ O).
    pose proof (offline_handle_events (t_events f) (events f) g O) as O1.
    destruct (handle_events _ _ g) as [running g1|e g1]; cbn [outcome_game] in O1.
    + destruct (offline_update (t_update f) g1 O1) as [Ev O2].
      pose proof (update_timeout_only (t_update f) g1) as T.
      destruct (update (t_update f) g1) as [ev g2]. cbn [fst snd] in *.
      assert (Q1 : quiet_tick (mkTick g1 ev g2)).
      { split; cbn [emitted before after]; [exact Ev|].
        intros P S. exact (T P Ev S). }
      destruct running.
      * destruct (IH g2 O2) as [F Of].
        destruct (run frames g2) as [ticks st]. cbn [fst snd] in *.
        split; [constructor; assumption | exact Of].
      * cbn. split; [constructor; [exact Q1 | constructor] | exact O2].
    + cbn. split; [constructor | exact O1].
Qed.

(** C8.  When the serial port could not be opened, every call of [update]
    the loop makes, from start-up on and whatever the input events and the
    clock, reports no event; a call that takes the game from [PLAYING] to
    [POSTGAME] does so with [time_remaining <= 0]; and [handle_events] never
    takes the game out of [PLAYING]. *)
Theorem no_port_no_sensor_events
  (db : LeaderboardManager) (t0 : Q) (frames : list Frame) :
  Forall quiet_tick (fst (run frames (init None db t0))) /\
  forall now evs g,
    state g = PLAYING ->
    state (outcome_game (handle_events now evs g)) = PLAYING.
Proof.
  split.
  - apply run_offline, offline_init.
  - intros now evs g P.
    destruct (handle_events_playing now evs g P) as [running ->]. exact P.
Qed.

(** ** The score *)

Lemma py_int_nonneg (x : Q) : 0 <= x -> py_int x = Qfloor x.
Proof.
  destruct x as [n d]. unfold py_int, Qfloor, Qle. cbn [Qnum Qden].
  intro H. apply Z.quot_div_nonneg; lia.
Qed.

Lemma py_int_nonpos (x : Q) : x <= 0 -> py_int x = Qceiling x.
Proof.
  destruct x as [n d]. unfold Qceiling, py_int, Qfloor, Qle, Qopp.
  cbn [Qnum Qden]. intro H.
  rewrite <- (Z.quot_div_nonneg (- n) (Zpos d)) by lia.
  rewrite Z.quot_opp_l by lia. lia.
Qed.

Lemma calculate_score_sum (g : AtlasJengaGame) :
  calculate_score g =
    py_int (round64
              (round64 (round64 (time_remaining g * 10)
                        + inject_Z (if (BLOCKS_TO_WIN <=? blocks_removed g)%Z
                                    then 100 else 0))
               + round64 (inject_Z (blocks_removed g * 100)))).
Proof.
  unfold calculate_score. destruct (BLOCKS_TO_WIN <=? blocks_removed g)%Z; reflexivity.
Qed.

Lemma py_int_Z (x : Q) (n : Z) : x == inject_Z n -> py_int x = n.
Proof.
  intro E. destruct (Qlt_le_dec x 0) as [N|P].
  - rewrite py_int_nonpos by (apply Qlt_le_weak; exact N).
    unfold Qceiling. rewrite E, <- inject_Z_opp, Qfloor_Z. lia.
  - rewrite py_int_nonneg by exact P. rewrite E. apply Qfloor_Z.
Qed.

Lemma py_int_monotone (x y : Q) : x <= y -> (py_int x <= py_int y)%Z.
Proof.
  intro L. destruct (Qlt_le_dec x 0) as [Xn|Xp].
  - destruct (Qlt_le_dec y 0) as [Yn|Yp].
    + rewrite (py_int_nonpos x), (py_int_nonpos y) by (apply Qlt_le_weak; assumption).
      apply Qceiling_resp_le. exact L.
    + rewrite (py_int_nonpos x) by (apply Qlt_le_weak; assumption).
      rewrite (py_int_nonneg y) by assumption.
      assert (A : (Qceiling x <= Qceiling 0)%Z)
        by (apply Qceiling_resp_le, Qlt_le_weak; exact Xn).
      assert (B : (Qfloor 0 <= Qfloor y)%Z) by (apply Qfloor_resp_le; exact Yp).
      change (Qceiling 0) with 0%Z in A. change (Qfloor 0) with 0%Z in B. lia.
  - assert (Yp : 0 <= y) by (eapply Qle_trans; eassumption).
    rewrite (py_int_nonneg x), (py_int_nonneg y) by assumption.
    apply Qfloor_resp_le. exact L.
Qed.

(** Rounding keeps a number between the integers it lies between. *)
Lemma round64_between (x : Q) (n m : Z) :
  (- 2 ^ 53 < n)%Z -> (m < 2 ^ 53)%Z ->
  inject_Z n <= x -> x <= inject_Z m ->
  inject_Z n <= round64 x /\ round64 x <= inject_Z m.
Proof.
  intros Bn Bm Lo Hi.
  assert (NM : (n <= m)%Z) by (rewrite Zle_Qle; eapply Qle_trans; eassumption).
  split.
  - rewrite <- (round64_Z n) by lia. apply round64_monotone. exact Lo.
  - rewrite <- (round64_Z m) by lia. apply round64_monotone. exact Hi.
Qed.

(** With time left, the score is the one of exact arithmetic or one more. *)
Lemma calculate_score_between (g : AtlasJengaGame) :
  let bonus := (if BLOCKS_TO_WIN <=? blocks_removed g then 100 else 0)%Z in
  let exact := (Qfloor (time_remaining g * 10) + bonus + blocks_removed g * 100)%Z in
  (0 <= blocks_removed g)%Z ->
  0 <= time_remaining g ->
  (exact + 1 < 2 ^ 53)%Z ->
  (exact <= calculate_score g <= exact + 1)%Z.
Proof.
  intros bonus exact B T Bound. rewrite calculate_score_sum. fold bonus.
  set (t10 := time_remaining g * 10) in *.
  set (n := Qfloor t10) in *.
  assert (Hb : (0 <= bonus)%Z) by (unfold bonus; destruct (_ <=? _)%Z; lia).
  assert (N0 : (0 <= n)%Z).
  { unfold n. change 0%Z with (Qfloor 0). apply Qfloor_resp_le. unfold t10. lra. }
  assert (F1 : inject_Z n <= t10) by apply Qfloor_le.
  assert (F2 : t10 <= inject_Z (n + 1)) by (apply Qlt_le_weak, Qlt_floor).
  destruct (round64_between t10 n (n + 1)) as [A1 A2]; try lia; try assumption.
  set (y1 := round64 t10) in *.
  destruct (round64_between (y1 + inject_Z bonus) (n + bonus) (n + 1 + bonus))
    as [C1 C2]; try lia.
  { rewrite inject_Z_plus. lra. }
  { rewrite inject_Z_plus. lra. }
  set (y2 := round64 (y1 + inject_Z bonus)) in *.
  assert (K : round64 (inject_Z (blocks_removed g * 100))
              == inject_Z (blocks_removed g * 100)) by (apply round64_Z; lia).
  set (kf := round64 (inject_Z (blocks_removed g * 100))) in *.
  destruct (round64_between (y2 + kf) exact (exact + 1)) as [D1 D2]; try lia.
  { unfold exact. rewrite !inject_Z_plus in *. lra. }
  { unfold exact.
    replace (n + bonus + blocks_removed g * 100 + 1)%Z
      with (n + 1 + bonus + blocks_removed g * 100)%Z by lia.
    rewrite !inject_Z_plus in *. lra. }
  set (y3 := round64 (y2 + kf)) in *.
  assert (E0 : (0 <= exact)%Z) by (unfold exact; lia).
  assert (P3 : 0 <= y3).
  { eapply Qle_trans; [|exact D1]. change 0 with (inject_Z 0).
    rewrite <- Zle_Qle. exact E0. }
  rewrite py_int_nonneg by exact P3.
  split.
  - rewrite <- (Qfloor_Z exact). apply Qfloor_resp_le. exact D1.
  - rewrite <- (Qfloor_Z (exact + 1)). apply Qfloor_resp_le. exact D2.
Qed.

(** When ten times the remaining time is an integer, nothing is rounded. *)
Lemma calculate_score_exact (g : AtlasJengaGame) (n : Z) :
  let bonus := (if BLOCKS_TO_WIN <=? blocks_removed g then 100 else 0)%Z in
  time_remaining g * 10 == inject_Z n ->
  (0 <= blocks_removed g)%Z ->
  (Z.abs n + bonus + blocks_removed g * 100 < 2 ^ 53)%Z ->
  calculate_score g = (n + bonus + blocks_removed g * 100)%Z.
Proof.
  intros bonus E B Bound. rewrite calculate_score_sum. fold bonus.
  assert (Hb : (0 <= bonus)%Z) by (unfold bonus; destruct (_ <=? _)%Z; lia).
  apply py_int_Z.
  assert (E1 : round64 (time_remaining g * 10) == inject_Z n).
  { rewrite <- (round64_Z n) by lia. apply round64_eq. exact E. }
  assert (E2 : round64 (round64 (time_remaining g * 10) + inject_Z bonus)
               == inject_Z (n + bonus)).
  { rewrite <- (round64_Z (n + bonus)) by lia. apply round64_eq.
    rewrite inject_Z_plus. lra. }
  assert (E3 : round64 (inject_Z (blocks_removed g * 100))
               == inject_Z (blocks_removed g * 100)) by (apply round64_Z; lia).
  rewrite <- (round64_Z (n + bonus + blocks_removed g * 100)) by lia.
  apply round64_eq. rewrite !inject_Z_plus in *. lra.
Qed.



(** ** The sampler *)

(** C5 (as the code has it).  [read_weight] never assigns the stored
    weight.  A line that parses makes it return the parsed value; a line
    that does not parse, bytes that do not decode and a port error make it
    return the stored weight, as does an open port with nothing pending;
    each of these uses up the pending read.  With no port it returns [0.0]
    and changes nothing; in a run started with no port that is the stored
    weight, which stays at its initial [0]. *)
Theorem read_weight_cases (h : SerialHandler) :
  last_weight (snd (read_weight h)) = last_weight h /\
  (forall raw rest v,
      serial h = Some (Line raw :: rest) -> parse_line raw = Some v ->
      read_weight h = (v, {| serial := Some rest; last_weight := last_weight h |})) /\
  (forall r rest,
      serial h = Some (r :: rest) ->
      (forall raw, r = Line raw -> parse_line raw = None) ->
      read_weight h
        = (last_weight h, {| serial := Some rest; last_weight := last_weight h |})) /\
  (serial h = Some [] -> read_weight h = (last_weight h, h)) /\
  (serial h = None -> read_weight h = (0, h)) /\
  (forall db t0 frames,
      let g := final (snd (run frames (init None db t0))) in
      fst (read_weight (serial_handler g)) = last_weight (serial_handler g)).
Proof.
  split; [apply read_weight_last_weight|].
  unfold read_weight. repeat split.
  - intros raw rest v -> ->. reflexivity.
  - intros r rest -> F. destruct r as [raw| |]; try reflexivity.
    rewrite (F raw eq_refl). reflexivity.
  - intros ->. reflexivity.
  - intros ->. reflexivity.
  - intros db t0 frames.
    destruct (run_offline frames _ (offline_init db t0)) as [_ [N L]].
    cbv zeta. rewrite N, L. reflexivity.
Qed.

(** ** Two defects, in general form *)

(** Nothing assigns [True] to [tower_collapsed]: the flag [draw_postgame]
    tests is [False] at every point of every run. *)
Lemma handle_events_tower_collapsed
  (now : Q) (evs : list PyEvent) (g : AtlasJengaGame) :
  tower_collapsed g = false ->
  tower_collapsed (outcome_game (handle_events now evs g)) = false.
Proof.
  revert g. induction evs as [|ev evs IH]; intros g T; [exact T|].
  destruct ev as [|key unicode| |]; cbn [handle_events].
  - exact T.
  - destruct (GameState_eqb (state g) POSTGAME); [|apply IH; exact T].
    destruct key; [|apply IH; exact T|apply IH; exact T].
    destruct (add_score _ _); [apply IH; exact T | exact T].
  - destruct (GameState_eqb (state g) PREGAME); apply IH; [|exact T].
    unfold reset_game. destruct (read_weight _). reflexivity.
  - apply IH; exact T.
Qed.

Lemma feed_tower_collapsed (lines : list rx) (g : AtlasJengaGame) :
  tower_collapsed (feed lines g) = tower_collapsed g.
Proof. unfold feed. destruct (serial _); reflexivity. Qed.

Lemma tower_collapsed_never_set (frames : list Frame) (g : AtlasJengaGame) :
  tower_collapsed g = false ->
  tower_collapsed (final (snd (run frames g))) = false /\
  Forall (fun tk => tower_collapsed (after tk) = false) (fst (run frames g)).
Proof.
  revert g. induction frames as [|f frames IH]; intros g T.
  - cbn. split; [exact T | constructor].
  - cbn [run].
    pose proof (handle_events_tower_collapsed (t_events f) (events f)
                  (feed (arrivals f) g)) as H.
    rewrite feed_tower_collapsed in H. specialize (H T).
    destruct (handle_events _ _ _) as [running g1|e g1]; cbn [outcome_game] in H.
    + pose proof (update_untouched (t_update f) g1) as U. cbv zeta in U.
      destruct U as [_ [_ [_ U]]]. rewrite H in U.
      destruct (update (t_update f) g1) as [ev g2]. cbn [snd] in U.
      destruct running.
      * destruct (IH g2 U) as [F A].
        destruct (run frames g2) as [ticks st]. cbn [fst snd] in *.
        split; [exact F | constructor; [exact U | exact A]].
      * cbn. split; [exact U | constructor; [exact U | constructor]].
    + cbn. split; [exact H | constructor].
Qed.

(** The collapse detector takes the first reading of a call of [update] and
    keeps it to itself: when at most one read is pending, the removal
    detector finds nothing to read, falls back on the stored weight and
    cannot fire. *)
Lemma lone_reading_never_removal (now : Q) (g : AtlasJengaGame) (pending : list rx) :
  serial (serial_handler g) = Some pending ->
  (length pending <= 1)%nat ->
  fst (update now g) <> Some BlockRemoved.
Proof.
  intros S Len.
  destruct (GameState_eqb (state g) PLAYING) eqn:E.
  - apply GameState_eqb_eq in E. rewrite (update_event now g E).
    destruct (Qltb COLLAPSE_THRESHOLD _); [discriminate|].
    assert (R : fst (read_weight (snd (read_weight (serial_handler g))))
                = last_weight (serial_handler g)).
    { pose proof (read_weight_last_weight (serial_handler g)) as L.
      assert (S1 : serial (snd (read_weight (serial_handler g))) = Some []).
      { unfold read_weight. rewrite S.
        destruct pending as [|r [|r' rest]]; [exact S| |cbn in Len; lia].
        destruct r as [raw| |]; try reflexivity.
        destruct (parse_line raw); reflexivity. }
      rewrite (read_weight_idle _ S1). exact L. }
    rewrite R.
    assert (B : Qltb WEIGHT_THRESHOLD
                  (Qabs (last_weight (serial_handler g)
                         - last_weight (serial_handler g))) = false).
    { apply Qltb_false. apply Qabs_Qle_condition.
      unfold WEIGHT_THRESHOLD. split; lra. }
    rewrite B. discriminate.
  - unfold update. rewrite E. discriminate.
Qed.

(** ** The leaderboard query *)

Lemma insert_by_score_perm (s : Score.t) (l : list Score.t) :
  Permutation (insert_by_score s l) (s :: l).
Proof.
  induction l as [|r l IH]; cbn [insert_by_score]; [reflexivity|].
  destruct (_ <=? _)%Z; [reflexivity|].
  rewrite IH. apply perm_swap.
Qed.

Lemma order_by_total_score_desc_perm (table : list Score.t) :
  Permutation (order_by_total_score_desc table) table.
Proof.
  induction table as [|r l IH]; cbn [order_by_total_score_desc]; [reflexivity|].
  rewrite insert_by_score_perm, IH. reflexivity.
Qed.

Lemma insert_by_score_sorted (s : Score.t) (l : list Score.t) :
  StronglySorted scores_no_less l ->
  StronglySorted scores_no_less (insert_by_score s l).
Proof.
  induction 1 as [|r l S IH F]; cbn [insert_by_score].
  - repeat constructor.
  - destruct (Score.total_score r <=? Score.total_score s)%Z eqn:E.
    + apply Z.leb_le in E. constructor; [constructor; assumption|].
      constructor; [exact E|].
      rewrite Forall_forall in F |- *. intros x I. specialize (F x I).
      unfold scores_no_less in *. lia.
    + apply Z.leb_gt in E. constructor; [exact IH|].
      rewrite Forall_forall in F |- *. intros x I.
      apply (Permutation_in _ (insert_by_score_perm s l)) in I.
      destruct I as [<-|I]; [unfold scores_no_less; lia | exact (F x I)].
Qed.

Lemma order_by_total_score_desc_sorted (table : list Score.t) :
  StronglySorted scores_no_less (order_by_total_score_desc table).
Proof.
  induction table as [|r l IH]; cbn [order_by_total_score_desc].
  - constructor.
  - apply insert_by_score_sorted, IH.
Qed.

Lemma sorted_app_inv {A : Type} (R : A -> A -> Prop) (l1 l2 : list A) :
  StronglySorted R (l1 ++ l2) ->
  StronglySorted R l1 /\ forall a b, In a l1 -> In b l2 -> R a b.
Proof.
  induction l1 as [|x l1 IH]; cbn [app]; intro S.
  - split; [constructor | intros a b []].
  - inversion S as [|? ? S' F]; subst. destruct (IH S') as [S1 C].
    split.
    + constructor; [exact S1|].
      rewrite Forall_forall in F |- *. intros y I. apply F, in_or_app. auto.
    + intros a b [<-|Ia] Ib.
      * rewrite Forall_forall in F. apply F, in_or_app. auto.
      * exact (C a b Ia Ib).
Qed.

Lemma sqlite_int64_iff (n : Z) :
  sqlite_int64 n = true <-> (- 2 ^ 63 <= n < 2 ^ 63)%Z.
Proof.
  unfold sqlite_int64. rewrite andb_true_iff, Z.leb_le, Z.ltb_lt. tauto.
Qed.

(** What a successful query returns: a prefix of the ordered table. *)
Lemma get_top_scores_inl (l : LeaderboardManager) (limit : Z) (top_scores : list Score.t) :
  get_top_scores l limit = inl top_scores ->
  io_failure l = false /\
  exists dropped,
    order_by_total_score_desc (rows l) = top_scores ++ dropped /\
    ((limit < 0)%Z -> dropped = []) /\
    ((0 <= limit)%Z ->
     top_scores = firstn (Z.to_nat limit) (order_by_total_score_desc (rows l))).
Proof.
  unfold get_top_scores, sql_limit. destruct (io_failure l); [discriminate|].
  destruct (sqlite_int64 limit); [|discriminate].
  intro H. injection H as <-. split; [reflexivity|].
  destruct (limit <? 0)%Z eqn:E.
  - apply Z.ltb_lt in E. exists []. rewrite app_nil_r.
    split; [reflexivity|]. split; [reflexivity | lia].
  - apply Z.ltb_ge in E.
    exists (skipn (Z.to_nat limit) (order_by_total_score_desc (rows l))).
    rewrite firstn_skipn. split; [reflexivity|]. split; [lia | reflexivity].
Qed.

Lemma scoring_at_least_perm (n : Z) (l1 l2 : list Score.t) :
  Permutation l1 l2 -> scoring_at_least n l1 = scoring_at_least n l2.
Proof.
  unfold scoring_at_least.
  induction 1 as [|x l1 l2 P IH|x y l|l1 l2 l3 P1 IH1 P2 IH2]; cbn [filter].
  - reflexivity.
  - destruct (_ <=? _)%Z; cbn [length]; lia.
  - destruct (n <=? Score.total_score x)%Z, (n <=? Score.total_score y)%Z;
      reflexivity.
  - lia.
Qed.

(** In a table ordered by decreasing score, a row stands at a position
    smaller than the number of rows that score at least as much. *)
Lemma sorted_position (s : Score.t) (l1 l2 : list Score.t) :
  StronglySorted scores_no_less (l1 ++ s :: l2) ->
  (length l1 < scoring_at_least (Score.total_score s) (l1 ++ s :: l2))%nat.
Proof.
  intro S. destruct (sorted_app_inv _ _ _ S) as [_ C].
  unfold scoring_at_least. rewrite filter_app, length_app. cbn [filter].
  rewrite Z.leb_refl. cbn [length].
  assert (E : filter (fun r => (Score.total_score s <=? Score.total_score r)%Z) l1 = l1).
  { apply forallb_filter_id. apply forallb_forall. intros x I.
    apply Z.leb_le. apply (C x s I). left. reflexivity. }
  rewrite E. lia.
Qed.

(** X1.  The scores a query returns are in decreasing order of
    [total_score]. *)
Theorem get_top_scores_descending
  (l : LeaderboardManager) (limit : Z) (top_scores : list Score.t) :
  get_top_scores l limit = inl top_scores ->
  StronglySorted scores_no_less top_scores.
Proof.
  intro H. destruct (get_top_scores_inl l limit top_scores H) as [_ [d [E _]]].
  pose proof (order_by_total_score_desc_sorted (rows l)) as S.
  rewrite E in S. exact (proj1 (sorted_app_inv _ _ _ S)).
Qed.

(** X2.  A query raises when the connection fails, and on a working
    connection it raises [OverflowError] when [limit] does not fit in 64
    bits.  Otherwise it returns [limit] scores, or the whole table when the
    table has fewer rows or when [limit] is negative. *)
Theorem get_top_scores_length (l : LeaderboardManager) (limit : Z) :
  (io_failure l = true -> exists e, get_top_scores l limit = inr e) /\
  (io_failure l = false -> ~ (- 2 ^ 63 <= limit < 2 ^ 63)%Z ->
   get_top_scores l limit = inr OverflowError) /\
  (io_failure l = false -> (- 2 ^ 63 <= limit < 2 ^ 63)%Z ->
   exists top_scores,
     get_top_scores l limit = inl top_scores /\
     length top_scores =
       if (limit <? 0)%Z then length (rows l)
       else Nat.min (Z.to_nat limit) (length (rows l))).
Proof.
  unfold get_top_scores, sql_limit. split; [|split].
  - intros ->. eexists. reflexivity.
  - intros -> N. destruct (sqlite_int64 limit) eqn:E; [|reflexivity].
    apply sqlite_int64_iff in E. contradiction.
  - intros -> R. apply sqlite_int64_iff in R. rewrite R.
    eexists. split; [reflexivity|].
    pose proof (Permutation_length (order_by_total_score_desc_perm (rows l))) as L.
    destruct (limit <? 0)%Z; [exact L|].
    rewrite length_firstn, L. reflexivity.
Qed.

(** X3.  The scores returned and the rows left out make up the table, and
    no row left out scores more than a score returned. *)
Theorem get_top_scores_are_the_best
  (l : LeaderboardManager) (limit : Z) (top_scores : list Score.t) :
  get_top_scores l limit = inl top_scores ->
  exists dropped,
    Permutation (top_scores ++ dropped) (rows l) /\
    forall a b, In a top_scores -> In b dropped ->
                (Score.total_score b <= Score.total_score a)%Z.
Proof.
  intro H. destruct (get_top_scores_inl l limit top_scores H) as [_ [d [E _]]].
  exists d. split.
  - rewrite <- E. apply order_by_total_score_desc_perm.
  - pose proof (order_by_total_score_desc_sorted (rows l)) as S.
    rewrite E in S. exact (proj2 (sorted_app_inv _ _ _ S)).
Qed.

(** X4.  A row of the table is among the scores returned as soon as no
    more than [limit] rows score at least as much as it. *)
Theorem high_score_is_listed
  (l : LeaderboardManager) (limit : Z) (top_scores : list Score.t) (s : Score.t) :
  get_top_scores l limit = inl top_scores ->
  In s (rows l) ->
  (scoring_at_least (Score.total_score s) (rows l) <= Z.to_nat limit)%nat ->
  In s top_scores.
Proof.
  intros H I C.
  destruct (get_top_scores_inl l limit top_scores H) as [_ [d [E [Neg Pos]]]].
  pose proof (order_by_total_score_desc_perm (rows l)) as P.
  apply (Permutation_in _ (Permutation_sym P)) in I.
  destruct (Z.ltb_spec limit 0) as [Lt|Ge].
  - rewrite E, (Neg Lt), app_nil_r in I. exact I.
  - rewrite (Pos Ge).
    destruct (in_split _ _ I) as [l1 [l2 E1]].
    pose proof (order_by_total_score_desc_sorted (rows l)) as S.
    rewrite E1 in S. apply sorted_position in S.
    rewrite <- E1, (scoring_at_least_perm _ _ _ P) in S.
    rewrite E1. rewrite firstn_app.
    apply in_or_app. right.
    destruct (Z.to_nat limit - length l1)%nat as [|k] eqn:K; [lia|].
    left. reflexivity.
Qed.

(** X5.  Insert, then query: once a score is added, a query whose limit
    exceeds the size the table had, and fits in 64 bits, returns the new
    score together with all the rows that were there. *)
Theorem add_then_query
  (l l' : LeaderboardManager) (s : Score.t) (limit : Z) :
  add_score l s = inl l' ->
  (Z.of_nat (length (rows l)) < limit < 2 ^ 63)%Z ->
  exists top_scores,
    get_top_scores l' limit = inl top_scores /\
    Permutation top_scores (s :: rows l).
Proof.
  unfold add_score. destruct (io_failure l) eqn:F; [discriminate|].
  intros H [Lim Fit]. injection H as <-.
  unfold get_top_scores, sql_limit. cbn [io_failure rows].
  assert (R : sqlite_int64 limit = true) by (apply sqlite_int64_iff; lia).
  rewrite R. eexists. split; [reflexivity|].
  assert (P : Permutation (order_by_total_score_desc (rows l ++ [s])) (s :: rows l)).
  { rewrite order_by_total_score_desc_perm.
    rewrite Permutation_app_comm. reflexivity. }
  destruct (limit <? 0)%Z; [exact P|].
  rewrite firstn_all2; [exact P|].
  rewrite (Permutation_length P). cbn [length]. lia.
Qed.

(** ** Name entry and submission *)

Lemma string_app_assoc (a b c : string) :
  ((a ++ b) ++ c)%string = (a ++ (b ++ c))%string.
Proof. induction a as [|x a IH]; cbn; [reflexivity | rewrite IH; reflexivity]. Qed.

Lemma drop_last_app (t : string) (c : ascii) :
  drop_last (t ++ String c EmptyString) = t.
Proof.
  induction t as [|a t IH]; [reflexivity|].
  cbn [append drop_last]. rewrite IH.
  destruct t; reflexivity.
Qed.

Lemma set_team_name_same (g : AtlasJengaGame) (t : string) :
  team_name g = t -> set_team_name t g = g.
Proof. intros <-. destruct g. reflexivity. Qed.

Lemma set_team_name_twice (g : AtlasJengaGame) (a b : string) :
  set_team_name b (set_team_name a g) = set_team_name b g.
Proof. reflexivity. Qed.

(** Typed characters are appended to the name, in order. *)
Lemma handle_events_typed
  (now : Q) (cs : list ascii) (rest : list PyEvent) (g : AtlasJengaGame) :
  state g = POSTGAME ->
  handle_events now (map typed cs ++ rest) g =
  handle_events now rest
    (set_team_name (team_name g ++ string_of_list_ascii cs) g).
Proof.
  revert g. induction cs as [|c cs IH]; intros g P.
  - cbn [map app string_of_list_ascii].
    assert (E : (team_name g ++ "")%string = team_name g).
    { generalize (team_name g). intro t.
      induction t as [|a t IHt]; cbn; [reflexivity | rewrite IHt; reflexivity]. }
    rewrite E, (set_team_name_same g _ eq_refl). reflexivity.
  - cbn [map app handle_events typed]. rewrite P. cbn [GameState_eqb].
    rewrite IH by exact P.
    cbn [team_name set_team_name string_of_list_ascii].
    rewrite string_app_assoc. reflexivity.
Qed.

(** Outside [POSTGAME] a batch of events neither touches the leaderboard
    nor raises, and it does not lead to [POSTGAME]. *)
Lemma handle_events_elsewhere
  (now : Q) (evs : list PyEvent) (g : AtlasJengaGame) :
  state g <> POSTGAME ->
  exists running g',
    handle_events now evs g = Returned running g' /\
    leaderboard g' = leaderboard g /\
    state g' <> POSTGAME.
Proof.
  revert g. induction evs as [|ev evs IH]; intros g N.
  - exists true, g. auto.
  - destruct ev as [|key unicode| |]; cbn [handle_events].
    + exists false, g. auto.
    + destruct (GameState_eqb (state g) POSTGAME) eqn:E;
        [apply GameState_eqb_eq in E; contradiction | apply IH; exact N].
    + destruct (GameState_eqb (state g) PREGAME); [|apply IH; exact N].
      destruct (IH (reset_game now (set_state PLAYING g))) as [r [g' [H [L S]]]].
      * unfold reset_game. destruct (read_weight _). cbn. discriminate.
      * exists r, g'. rewrite reset_game_leaderboard in L. auto.
    + apply IH; exact N.
Qed.

(** X6.  In [POSTGAME] with a working leaderboard, the characters typed
    before ENTER end up, after the name already entered, in the row that is
    stored; the row carries the counters and the score of the game as it
    ended.  The state becomes [PREGAME], the counters are not reset, and
    the rest of the batch is handled from there. *)
Theorem typed_name_is_stored
  (now : Q) (cs : list ascii) (unicode : string) (rest : list PyEvent)
  (g : AtlasJengaGame) :
  state g = POSTGAME ->
  io_failure (leaderboard g) = false ->
  exists g1,
    handle_events now (map typed cs ++ KEYDOWN K_RETURN unicode :: rest) g
      = handle_events now rest g1 /\
    state g1 = PREGAME /\
    rows (leaderboard g1)
      = rows (leaderboard g)
        ++ [row_of (team_name g ++ string_of_list_ascii cs) g] /\
    blocks_removed g1 = blocks_removed g /\
    time_remaining g1 = time_remaining g.
Proof.
  intros P F. rewrite (handle_events_typed now cs _ g P).
  cbn [handle_events state set_team_name]. rewrite P. cbn [GameState_eqb].
  unfold add_score. cbn [leaderboard set_team_name]. rewrite F.
  eexists. split; [reflexivity|]. cbn. repeat split; reflexivity.
Qed.

(** X7.  Backspace undoes typing: in [POSTGAME], characters typed and then
    deleted by as many backspaces leave the game as it was. *)
Theorem backspace_undoes_typing
  (now : Q) (cs : list ascii) (rest : list PyEvent) (g : AtlasJengaGame) :
  state g = POSTGAME ->
  handle_events now (map typed cs ++ repeat backspace (length cs) ++ rest) g
    = handle_events now rest g.
Proof.
  revert rest g. induction cs as [|c cs IH]; intros rest g P; [reflexivity|].
  cbn [map app length].
  change (repeat backspace (S (length cs)))
    with (backspace :: repeat backspace (length cs)).
  rewrite repeat_cons, <- app_assoc.
  cbn [handle_events typed]. rewrite P. cbn [GameState_eqb].
  rewrite IH by exact P.
  cbn [app handle_events backspace state set_team_name]. rewrite P.
  cbn [GameState_eqb team_name set_team_name].
  rewrite drop_last_app, set_team_name_twice, (set_team_name_same g _ eq_refl).
  reflexivity.
Qed.

(** X8.  While the game is in [PLAYING], no batch of input events changes
    anything: key presses and clicks are ignored, and [handle_events]
    returns [False] exactly when the batch holds a [QUIT]. *)
Theorem input_ignored_while_playing
  (now : Q) (evs : list PyEvent) (g : AtlasJengaGame) :
  state g = PLAYING ->
  handle_events now evs g = Returned (negb (existsb is_QUIT evs)) g.
Proof.
  intro P. induction evs as [|ev evs IH]; [reflexivity|].
  destruct ev as [|key unicode| |]; cbn [handle_events existsb is_QUIT orb];
    rewrite ?P; cbn [GameState_eqb]; try exact IH. reflexivity.
Qed.

(** X9.  One batch of events stores at most one row, and only when it
    starts in [POSTGAME]; that row carries the counters and the score the
    game had when the batch started, whatever was typed in between. *)
Theorem one_row_per_batch
  (now : Q) (evs : list PyEvent) (g : AtlasJengaGame) :
  let g' := outcome_game (handle_events now evs g) in
  rows (leaderboard g') = rows (leaderboard g) \/
  (state g = POSTGAME /\
   exists name, rows (leaderboard g') = rows (leaderboard g) ++ [row_of name g]).
Proof.
  cbv zeta. destruct (GameState_eqb (state g) POSTGAME) eqn:E.
  - apply GameState_eqb_eq in E.
    assert (G : forall evs g0,
               state g0 = POSTGAME ->
               leaderboard g0 = leaderboard g ->
               (forall name, row_of name g0 = row_of name g) ->
               rows (leaderboard (outcome_game (handle_events now evs g0)))
                 = rows (leaderboard g) \/
               exists name,
                 rows (leaderboard (outcome_game (handle_events now evs g0)))
                   = rows (leaderboard g) ++ [row_of name g]).
    { clear evs. induction evs as [|ev evs IH]; intros g0 P L R.
      - left. cbn. rewrite L. reflexivity.
      - destruct ev as [|key unicode| |]; cbn [handle_events].
        + left. cbn. rewrite L. reflexivity.
        + rewrite P. cbn [GameState_eqb]. destruct key.
          * unfold add_score. destruct (io_failure (leaderboard g0)).
            -- left. cbn. rewrite L. reflexivity.
            -- right. exists (team_name g0).
               match goal with
               | |- context [handle_events now evs ?g1] =>
                   destruct (handle_events_elsewhere now evs g1) as [r [g2 [H [L2 _]]]];
                   [cbn; discriminate | rewrite H; cbn [outcome_game]; rewrite L2]
               end.
               cbn. rewrite L. f_equal. f_equal. exact (R (team_name g0)).
          * apply IH; [exact P | exact L | exact R].
          * apply IH; [exact P | exact L | exact R].
        + rewrite P. cbn [GameState_eqb]. apply IH; assumption.
        + apply IH; assumption. }
    destruct (G evs g E eq_refl (fun _ => eq_refl)) as [H|H]; auto.
  - left.
    destruct (handle_events_elsewhere now evs g) as [r [g' [H [L _]]]].
    + intro P. rewrite P in E. discriminate.
    + rewrite H. cbn. rewrite L. reflexivity.
Qed.

(** ** More on [update] *)

(** Reads the fields of a game through the setters and [play_sound]. *)
Ltac game_fields :=
  repeat (progress
    (sound_fields;
     cbn [serial_handler leaderboard state blocks_removed start_time
          time_remaining team_name tower_collapsed
          set_state set_blocks_removed set_serial_handler set_time_remaining
          set_leaderboard set_team_name])).

Ltac game_fields_in H :=
  repeat (progress
    (repeat match type of H with
     | context [time_remaining (play_sound ?n ?g)] =>
         rewrite (proj1 (proj2 (proj2 (proj2 (proj2 (proj2
                   (play_sound_fields n g))))))) in H
     | context [blocks_removed (play_sound ?n ?g)] =>
         rewrite (proj1 (proj2 (proj2 (proj2 (play_sound_fields n g))))) in H
     end;
     cbn [serial_handler leaderboard state blocks_removed start_time
          time_remaining team_name tower_collapsed
          set_state set_blocks_removed set_serial_handler set_time_remaining
          set_leaderboard set_team_name] in H)).

(** [update_cases], with the outcome of the two tests of [update] read as
    facts about the game it was called on. *)
Ltac update_cases_read :=
  update_cases; game_fields;
  repeat match goal with
  | H : context [play_sound _ _] |- _ => progress game_fields_in H
  | H : context [time_remaining _] |- _ => progress game_fields_in H
  end;
  repeat match goal with
  | H : (_ <=? _)%Z = true |- _ => apply Z.leb_le in H
  | H : (_ <=? _)%Z = false |- _ => apply Z.leb_gt in H
  end;
  unfold BLOCKS_TO_WIN in *.

Lemma Qabs_self_difference (x : Q) : Qabs (x - x) <= WEIGHT_THRESHOLD.
Proof. apply Qabs_Qle_condition. unfold WEIGHT_THRESHOLD. split; lra. Qed.

Lemma update_playing_only (now : Q) (g : AtlasJengaGame) (e : Event) :
  fst (update now g) = Some e -> state g = PLAYING.
Proof.
  intro H. destruct (GameState_eqb (state g) PLAYING) eqn:E.
  - apply GameState_eqb_eq. exact E.
  - unfold update in H. rewrite E in H. discriminate.
Qed.

Lemma read_weight_pending (h : SerialHandler) :
  pending_reads (snd (read_weight h)) = skipn 1 (pending_reads h).
Proof.
  unfold read_weight, pending_reads.
  destruct h as [[[|[raw| |] rest]|] lw]; cbn [serial snd skipn]; try reflexivity.
  destruct (parse_line raw); reflexivity.
Qed.

(** With an open port a call of [read_weight] leaves the pending reads
    but the first. *)
Lemma read_weight_open (h : SerialHandler) (pending : list rx) :
  serial h = Some pending ->
  snd (read_weight h)
    = {| serial := Some (tl pending); last_weight := last_weight h |}.
Proof.
  unfold read_weight. destruct h as [port lw]. cbn [serial last_weight].
  intros ->. destruct pending as [|[raw| |] rest]; try reflexivity.
  destruct (parse_line raw); reflexivity.
Qed.


(** X11.  A call of [update] outside [PLAYING] reads nothing from the port;
    in [PLAYING] it uses up the first pending read when it reports a
    collapse and the first two otherwise. *)
Theorem update_uses_up_reads (now : Q) (g : AtlasJengaGame) :
  pending_reads (serial_handler (snd (update now g)))
    = skipn (reads_used (state g) (fst (update now g)))
            (pending_reads (serial_handler g)).
Proof.
  destruct (GameState_eqb (state g) PLAYING) eqn:E.
  - apply GameState_eqb_eq in E.
    rewrite (update_handler now g E), (update_event now g E), E.
    pose proof (read_weight_pending (serial_handler g)) as P1.
    pose proof (read_weight_pending (snd (read_weight (serial_handler g)))) as P2.
    rewrite P1, skipn_skipn in P2.
    destruct (Qltb COLLAPSE_THRESHOLD _).
    + exact P1.
    + destruct (Qltb WEIGHT_THRESHOLD _); exact P2.
  - unfold update. rewrite E. cbn [fst snd].
    destruct (state g); try discriminate; reflexivity.
Qed.

(** X12.  What a call of [update] in [PLAYING] does to the counters: the
    remaining time is recomputed from the clock, the block count goes up by
    one exactly when [BlockRemoved] is reported, and the game is over
    afterwards exactly when a collapse was reported, or the count reached
    [BLOCKS_TO_WIN], or no time remains. *)
Theorem update_counts_and_phase (now : Q) (g : AtlasJengaGame) :
  state g = PLAYING ->
  let ev := fst (update now g) in
  let g' := snd (update now g) in
  time_remaining g' = GAME_DURATION - (now - start_time g) /\
  blocks_removed g' =
    (blocks_removed g
     + match ev with Some BlockRemoved => 1 | _ => 0 end)%Z /\
  (state g' = POSTGAME \/ state g' = PLAYING) /\
  (state g' = POSTGAME <->
   ev = Some TowerCollapsed \/
   (ev = Some BlockRemoved /\ (BLOCKS_TO_WIN <= blocks_removed g + 1)%Z) \/
   time_remaining g' <= 0).
Proof.
  intro P. cbv zeta. update_cases_read;
    try (assert (Hout' : ~ GAME_DURATION - (now - start_time g) <= 0)
           by (intro A; apply Qle_bool_iff in A; congruence));
    try (apply Qle_bool_iff in Hout);
    (split; [reflexivity|]); (split; [lia|]);
    (split; [rewrite ?P; auto|]).
  - split; auto.
  - split; auto.
  - split; auto.
  - split; auto.
  - rewrite P. split; [discriminate|].
    intros [A|[[_ A]|A]]; [discriminate | lia | contradiction].
  - split; auto.
  - rewrite P. split; [discriminate|].
    intros [A|[[A _]|A]]; [discriminate | discriminate | contradiction].
Qed.

(** X13.  The deadline is kept: any call of [update] made in [PLAYING] once
    [GAME_DURATION] has elapsed since the start ends the game, whatever the
    scale reports. *)
Theorem deadline_ends_game (now : Q) (g : AtlasJengaGame) :
  state g = PLAYING ->
  GAME_DURATION <= now - start_time g ->
  state (snd (update now g)) = POSTGAME.
Proof.
  intros P D.
  assert (T : Qle_bool (GAME_DURATION - (now - start_time g)) 0 = true)
    by (apply Qle_bool_iff; lra).
  update_cases_read; try reflexivity; congruence.
Qed.

(** X14.  A [BlockRemoved] is always decided by the second pending read of
    the call: with an open port, it is reported only when at least two
    reads are pending and the second is a line that parses to a weight more
    than [WEIGHT_THRESHOLD] away from the stored one. *)
Theorem removal_decided_by_second_read
  (now : Q) (g : AtlasJengaGame) (pending : list rx) :
  serial (serial_handler g) = Some pending ->
  fst (update now g) = Some BlockRemoved ->
  exists first raw rest v,
    pending = first :: Line raw :: rest /\
    parse_line raw = Some v /\
    WEIGHT_THRESHOLD < Qabs (v - last_weight (serial_handler g)).
Proof.
  intros S Ev. pose proof (update_playing_only now g _ Ev) as P.
  rewrite (update_event now g P) in Ev.
  destruct (Qltb COLLAPSE_THRESHOLD _); [discriminate|].
  destruct (Qltb WEIGHT_THRESHOLD _) eqn:B; [|discriminate].
  apply Qltb_true in B. clear Ev.
  rewrite (read_weight_open _ _ S) in B.
  set (lw := last_weight (serial_handler g)) in *.
  assert (N : ~ WEIGHT_THRESHOLD < Qabs (lw - lw))
    by (apply Qle_not_lt, Qabs_self_difference).
  destruct pending as [|first [|second rest]]; cbn [tl] in B;
    try (exfalso; exact (N B)).
  destruct second as [raw| |]; try (exfalso; exact (N B)).
  unfold read_weight in B. cbn [serial last_weight] in B.
  destruct (parse_line raw) as [v|] eqn:V; cbn [fst] in B;
    [| exfalso; exact (N B)].
  exists first, raw, rest, v. auto.
Qed.

(** ** Invariants of the loop *)

(** Induction along [run]: a property of games that the arrival of input,
    [handle_events] and [update] keep holds of the game at every point, and
    what it tells of each call of [update] holds of every tick. *)
Lemma run_invariant (I : AtlasJengaGame -> Prop) (T : Tick -> Prop) :
  (forall lines g, I g -> I (feed lines g)) ->
  (forall now evs g, I g -> I (outcome_game (handle_events now evs g))) ->
  (forall now g, I g ->
     I (snd (update now g)) /\
     T (mkTick g (fst (update now g)) (snd (update now g)))) ->
  forall frames g, I g ->
    I (final (snd (run frames g))) /\ Forall T (fst (run frames g)).
Proof.
  intros Hfeed Hev Hup. induction frames as [|f frames IH]; intros g Ig.
  - cbn. split; [exact Ig | constructor].
  - cbn [run].
    pose proof (Hev (t_events f) (events f) _ (Hfeed (arrivals f) g Ig)) as I1.
    destruct (handle_events _ _ _) as [running g1|e g1]; cbn [outcome_game] in I1.
    + destruct (Hup (t_update f) g1 I1) as [I2 T2].
      destruct (update (t_update f) g1) as [ev g2]. cbn [fst snd] in I2, T2.
      destruct running.
      * destruct (IH g2 I2) as [If Ft].
        destruct (run frames g2) as [ticks st]. cbn [fst snd] in *.
        split; [exact If | constructor; assumption].
      * cbn. split; [exact I2 | constructor; [exact T2 | constructor]].
    + cbn. split; [exact I1 | constructor].
Qed.

Lemma counter_in_range_feed (lines : list rx) (g : AtlasJengaGame) :
  counter_in_range g -> counter_in_range (feed lines g).
Proof. unfold feed. destruct (serial _); auto. Qed.

Lemma counter_in_range_handle_events
  (now : Q) (evs : list PyEvent) (g : AtlasJengaGame) :
  counter_in_range g ->
  counter_in_range (outcome_game (handle_events now evs g)).
Proof.
  revert g. induction evs as [|ev evs IH]; intros g C; [exact C|].
  destruct ev as [|key unicode| |]; cbn [handle_events].
  - exact C.
  - destruct (GameState_eqb (state g) POSTGAME); [|apply IH; exact C].
    destruct key; [|apply IH; exact C|apply IH; exact C].
    destruct (add_score _ _); [|exact C].
    apply IH. destruct C as [B _]. split; [exact B | discriminate].
  - destruct (GameState_eqb (state g) PREGAME); apply IH; [|exact C].
    unfold reset_game. destruct (read_weight _).
    split; cbn; unfold BLOCKS_TO_WIN; lia.
  - apply IH; exact C.
Qed.

Lemma counter_in_range_update (now : Q) (g : AtlasJengaGame) :
  counter_in_range g -> counter_in_range (snd (update now g)).
Proof.
  intros [B L].
  destruct (GameState_eqb (state g) PLAYING) eqn:E.
  - apply GameState_eqb_eq in E. specialize (L E). unfold counter_in_range.
    update_cases_read; (split; [lia|]); try discriminate; intros _; lia.
  - unfold update. rewrite E. split; assumption.
Qed.

Lemma counter_in_range_init
  (port : option (list rx)) (db : LeaderboardManager) (t0 : Q) :
  counter_in_range (init port db t0).
Proof.
  unfold init, reset_game. destruct (read_weight _).
  split; cbn; [unfold BLOCKS_TO_WIN; lia | discriminate].
Qed.

Lemma calculate_score_nonneg (g : AtlasJengaGame) :
  0 <= time_remaining g -> (0 <= blocks_removed g)%Z ->
  (0 <= calculate_score g)%Z.
Proof.
  intros T B. rewrite calculate_score_sum.
  set (bonus := if (BLOCKS_TO_WIN <=? blocks_removed g)%Z then 100%Z else 0%Z).
  assert (Hb : 0 <= inject_Z bonus).
  { change 0 with (inject_Z 0). rewrite <- Zle_Qle.
    unfold bonus. destruct (_ <=? _)%Z; lia. }
  assert (Hk : 0 <= inject_Z (blocks_removed g * 100)).
  { change 0 with (inject_Z 0). rewrite <- Zle_Qle. lia. }
  assert (Y1 : 0 <= round64 (time_remaining g * 10))
    by (apply round64_nonneg; lra).
  set (y1 := round64 (time_remaining g * 10)) in *.
  assert (Y2 : 0 <= round64 (y1 + inject_Z bonus))
    by (apply round64_nonneg; lra).
  set (y2 := round64 (y1 + inject_Z bonus)) in *.
  assert (K : 0 <= round64 (inject_Z (blocks_removed g * 100)))
    by (apply round64_nonneg; exact Hk).
  set (kf := round64 (inject_Z (blocks_removed g * 100))) in *.
  assert (Y3 : 0 <= round64 (y2 + kf)) by (apply round64_nonneg; lra).
  rewrite py_int_nonneg by exact Y3.
  change 0%Z with (Qfloor 0). apply Qfloor_resp_le. exact Y3.
Qed.

(** X15.  In every run, from start-up on, the block counter stays between
    0 and [BLOCKS_TO_WIN], at the end of every call of [update] and where
    the run stands; while the state is [PLAYING] it is below
    [BLOCKS_TO_WIN]. *)
Theorem blocks_removed_in_range
  (port : option (list rx)) (db : LeaderboardManager) (t0 : Q)
  (frames : list Frame) :
  counter_in_range (final (snd (run frames (init port db t0)))) /\
  Forall (fun tk => counter_in_range (after tk))
         (fst (run frames (init port db t0))).
Proof.
  apply (run_invariant counter_in_range
           (fun tk => counter_in_range (after tk))).
  - apply counter_in_range_feed.
  - apply counter_in_range_handle_events.
  - intros now g C. cbn [after].
    split; apply counter_in_range_update; exact C.
  - apply counter_in_range_init.
Qed.

(** X16.  In every run, whenever a call of [update] leaves the game in
    [PLAYING], time remains and the live score is not negative: a negative
    score can only be the score of a game that is over. *)
Theorem live_score_not_negative
  (port : option (list rx)) (db : LeaderboardManager) (t0 : Q)
  (frames : list Frame) :
  Forall (fun tk => state (after tk) = PLAYING ->
                    0 < time_remaining (after tk) /\
                    (0 <= calculate_score (after tk))%Z)
         (fst (run frames (init port db t0))).
Proof.
  apply (run_invariant counter_in_range).
  - apply counter_in_range_feed.
  - apply counter_in_range_handle_events.
  - intros now g C. split; [apply counter_in_range_update; exact C|].
    cbn [after]. intro S.
    pose proof (counter_in_range_update now g C) as [[B _] _].
    assert (T : 0 < time_remaining (snd (update now g))).
    { destruct (GameState_eqb (state g) PLAYING) eqn:E.
      - apply GameState_eqb_eq in E. revert S.
        update_cases_read; try discriminate; intros _;
          apply Qnot_le_lt; intro A; apply Qle_bool_iff in A; congruence.
      - unfold update in S. rewrite E in S. cbn [snd] in S.
        rewrite S in E. discriminate. }
    split; [exact T|].
    apply calculate_score_nonneg; [apply Qlt_le_weak; exact T | exact B].
  - apply counter_in_range_init.
Qed.

(** X17.  The sounds a call of [update] in [PLAYING] plays, in order:
    [failure] alone for a collapse; otherwise [block_removed] for a
    removal, then [success] if the count reached [BLOCKS_TO_WIN], then
    [failure] if no time remains -- so a winning removal made when the time
    is up plays [success] and then [failure]. *)
Theorem sounds_played_by_update (now : Q) (g : AtlasJengaGame) :
  state g = PLAYING ->
  audio (snd (update now g))
    = audio g
      ++ sounds_of_tick (fst (update now g))
           (BLOCKS_TO_WIN <=? blocks_removed g + 1)%Z
           (Qle_bool (GAME_DURATION - (now - start_time g)) 0).
Proof.
  intro P. unfold update. rewrite P.
  cbn [GameState_eqb serial_handler set_time_remaining set_serial_handler].
  destruct (detect_tower_collapse _) as [[|] h1].
  - reflexivity.
  - destruct (detect_block_removal _) as [[|] h2];
      cbn [fst snd blocks_removed set_blocks_removed set_serial_handler
           set_time_remaining];
      repeat match goal with
      | |- context [blocks_removed (play_sound ?n ?x)] =>
          rewrite (proj1 (proj2 (proj2 (proj2 (play_sound_fields n x)))))
      | |- context [time_remaining (play_sound ?n ?x)] =>
          rewrite (proj1 (proj2 (proj2 (proj2 (proj2 (proj2
                    (play_sound_fields n x)))))))
      | |- context [time_remaining (set_state ?a ?x)] =>
          change (time_remaining (set_state a x)) with (time_remaining x)
      end;
      cbn [blocks_removed time_remaining set_blocks_removed set_serial_handler
           set_time_remaining].
    + destruct (BLOCKS_TO_WIN <=? blocks_removed g + 1)%Z;
        game_fields; destruct (Qle_bool _ _);
        cbn; rewrite <- ?app_assoc; reflexivity.
    + destruct (Qle_bool _ _); cbn; rewrite ?app_nil_r; reflexivity.
Qed.

(** ** Rendering *)

Lemma leaderboard_lines_length (i : Z) (l : list Score.t) :
  length (leaderboard_lines i l) = length l.
Proof.
  revert i. induction l as [|r l IH]; intro i; cbn [leaderboard_lines length];
    [reflexivity | rewrite IH; reflexivity].
Qed.

(** X18.  [draw] raises exactly when the state is not [PLAYING] and the
    leaderboard fails: the playing screen never queries the leaderboard,
    the two other screens always do. *)
Theorem draw_raises_iff (g : AtlasJengaGame) :
  (exists e, draw g = inr e) <->
  state g <> PLAYING /\ io_failure (leaderboard g) = true.
Proof.
  unfold draw, draw_pregame, draw_postgame, get_top_scores.
  destruct (state g), (io_failure (leaderboard g)); split;
    try (intros [e H]; discriminate);
    try (intros [A B]; first [discriminate | contradiction]).
  - intros _. split; [discriminate | reflexivity].
  - intros _. exists sqlite3_Error. reflexivity.
  - intros _. split; [discriminate | reflexivity].
  - intros _. exists sqlite3_Error. reflexivity.
Qed.

(** X19.  On the title screen and on the end screen, below three,
    respectively five, fixed texts, the leaderboard takes one line per row
    of the table and never more than five; the lines are 40 pixels apart,
    from 490 down to at most 650, inside the 720 pixels of the window. *)
Theorem leaderboard_fits_the_window (g : AtlasJengaGame) (blits : list Blit) :
  state g <> PLAYING ->
  draw g = inl blits ->
  exists fixed lines,
    blits = fixed ++ lines /\
    length fixed = (if GameState_eqb (state g) PREGAME then 3 else 5)%nat /\
    length lines = Nat.min 5 (length (rows (leaderboard g))) /\
    map top lines = firstn (length lines) leaderboard_tops.
Proof.
  intros N.
  assert (L : forall l : list Score.t,
             map top (leaderboard_lines 0 (firstn 5 l))
             = firstn (length (leaderboard_lines 0 (firstn 5 l))) leaderboard_tops).
  { intro l. destruct l as [|a [|b [|c [|d [|e l]]]]]; reflexivity. }
  assert (M : forall top_scores,
             get_top_scores (leaderboard g) 5 = inl top_scores ->
             length (leaderboard_lines 0 top_scores)
               = Nat.min 5 (length (rows (leaderboard g))) /\
             map top (leaderboard_lines 0 top_scores)
               = firstn (length (leaderboard_lines 0 top_scores)) leaderboard_tops).
  { unfold get_top_scores. destruct (io_failure _); [discriminate|].
    intros ts H. injection H as <-.
    change (sql_limit 5 (order_by_total_score_desc (rows (leaderboard g))))
      with (firstn 5 (order_by_total_score_desc (rows (leaderboard g)))).
    split; [|apply L].
    rewrite leaderboard_lines_length, length_firstn.
    rewrite (Permutation_length (order_by_total_score_desc_perm _)).
    reflexivity. }
  unfold draw. destruct (state g) eqn:S; [| contradiction |].
  - unfold draw_pregame.
    destruct (get_top_scores (leaderboard g) 5) as [ts|e] eqn:Q; [|discriminate].
    intro H. injection H as <-. destruct (M ts eq_refl) as [M1 M2].
    eexists [_; _; _], (leaderboard_lines 0 ts).
    split; [reflexivity|]. split; [reflexivity|]. split; assumption.
  - unfold draw_postgame.
    destruct (get_top_scores (leaderboard g) 5) as [ts|e] eqn:Q; [|discriminate].
    intro H. injection H as <-. destruct (M ts eq_refl) as [M1 M2].
    eexists [_; _; _; _; _], (leaderboard_lines 0 ts).
    split; [reflexivity|]. split; [reflexivity|]. split; assumption.
Qed.

(** Every turn shown is a turn of [run], and its screen is what [draw]
    gives for the game after its [update]. *)
Lemma run_drawing_shown (frames : list Frame) (g : AtlasJengaGame) :
  (exists more,
     fst (run frames g) = map tick (fst (run_drawing frames g)) ++ more) /\
  Forall (fun sh => draw (after (tick sh)) = inl (screen sh))
         (fst (run_drawing frames g)).
Proof.
  revert g. induction frames as [|f frames IH]; intro g.
  - cbn. split; [exists []; reflexivity | constructor].
  - cbn [run run_drawing].
    destruct (handle_events _ _ _) as [running g1|e g1].
    + destruct (update (t_update f) g1) as [ev g2].
      destruct (draw g2) as [blits|e] eqn:D.
      * destruct running.
        -- destruct (IH g2) as [[more E] F].
           destruct (run frames g2) as [ticks st].
           destruct (run_drawing frames g2) as [shown st'].
           cbn [fst snd map app] in *. split.
           ++ exists more. rewrite E. reflexivity.
           ++ constructor; [exact D | exact F].
        -- cbn. split; [exists []; reflexivity|].
           constructor; [exact D | constructor].
      * cbn [fst map app]. split; [eexists; reflexivity | constructor].
    + cbn. split; [exists []; reflexivity | constructor].
Qed.

(** X20.  In every run, from start-up on, an end screen that is shown is
    headed Victory! when [BLOCKS_TO_WIN] blocks were removed and Game Over
    otherwise, also when the game ended by a collapse: the headline Tower
    Collapsed! of [draw_postgame] is never shown. *)
Theorem end_screen_headline
  (port : option (list rx)) (db : LeaderboardManager) (t0 : Q)
  (frames : list Frame) :
  Forall (fun sh =>
            state (after (tick sh)) = POSTGAME ->
            exists below, screen sh = verdict (after (tick sh)) :: below)
         (fst (run_drawing frames (init port db t0))).
Proof.
  destruct (run_drawing_shown frames (init port db t0)) as [[more E] D].
  assert (T : tower_collapsed (init port db t0) = false).
  { unfold init, reset_game. destruct (read_weight _). reflexivity. }
  destruct (tower_collapsed_never_set frames _ T) as [_ F].
  rewrite E in F. apply Forall_app in F. destruct F as [F _].
  rewrite Forall_map in F.
  rewrite Forall_forall in *. intros sh I S.
  specialize (D sh I). specialize (F sh I). cbv beta in D, F.
  unfold draw in D. rewrite S in D. unfold draw_postgame in D. rewrite F in D.
  destruct (get_top_scores _ _); [|discriminate].
  injection D as <-. unfold verdict.
  destruct (BLOCKS_TO_WIN <=? _)%Z; eexists; reflexivity.
Qed.

Lemma handle_events_io_failure
  (now : Q) (evs : list PyEvent) (g : AtlasJengaGame) :
  io_failure (leaderboard (outcome_game (handle_events now evs g)))
    = io_failure (leaderboard g).
Proof.
  revert g. induction evs as [|ev evs IH]; intro g; [reflexivity|].
  destruct ev as [|key unicode| |]; cbn [handle_events].
  - reflexivity.
  - destruct (GameState_eqb (state g) POSTGAME); [|apply IH].
    destruct key;
      [| exact (IH (set_team_name (drop_last (team_name g)) g))
       | exact (IH (set_team_name (team_name g ++ unicode) g))].
    unfold add_score. destruct (io_failure (leaderboard g)) eqn:F.
    + cbn. exact F.
    + rewrite IH. cbn. reflexivity.
  - destruct (GameState_eqb (state g) PREGAME); [|apply IH].
    rewrite IH, reset_game_leaderboard. reflexivity.
  - apply IH.
Qed.

(** X21.  With a leaderboard that works, rendering changes nothing to the
    course of the loop: turn for turn, [run] with its call of [draw] makes
    the calls of [update] of [run] without it and stands where it
    stands. *)
Theorem drawing_changes_nothing (frames : list Frame) (g : AtlasJengaGame) :
  io_failure (leaderboard g) = false ->
  map tick (fst (run_drawing frames g)) = fst (run frames g) /\
  snd (run_drawing frames g) = snd (run frames g).
Proof.
  revert g. induction frames as [|f frames IH]; intros g F; [split; reflexivity|].
  cbn [run run_drawing].
  pose proof (handle_events_io_failure (t_events f) (events f)
                (feed (arrivals f) g)) as F1.
  rewrite feed_leaderboard, F in F1.
  destruct (handle_events _ _ _) as [running g1|e g1]; cbn [outcome_game] in F1;
    [|split; reflexivity].
  pose proof (update_untouched (t_update f) g1) as U. cbv zeta in U.
  destruct U as [U _].
  destruct (update (t_update f) g1) as [ev g2]. cbn [snd] in U.
  assert (F2 : io_failure (leaderboard g2) = false) by (rewrite U; exact F1).
  destruct (draw g2) as [blits|e] eqn:D.
  - destruct running; [|split; reflexivity].
    destruct (IH g2 F2) as [E1 E2].
    destruct (run frames g2) as [ticks st].
    destruct (run_drawing frames g2) as [shown st'].
    cbn [fst snd map tick] in *. rewrite E1, E2. split; reflexivity.
  - exfalso.
    assert (X : exists e, draw g2 = inr e) by (exists e; exact D).
    revert X. unfold draw, draw_pregame, draw_postgame, get_top_scores.
    rewrite F2. destruct (state g2); intros [e' H]; discriminate.
Qed.

(** ** Labelled lines *)

Lemma string_rev_app (s acc : string) :
  string_rev s acc = (string_rev s EmptyString ++ acc)%string.
Proof.
  revert acc. induction s as [|c s IH]; intro acc; cbn [string_rev];
    [reflexivity|].
  rewrite IH, (IH (String c EmptyString)), string_app_assoc. reflexivity.
Qed.

Lemma split_aux_absent (sep cur s : string) :
  contains sep s = false ->
  split_aux sep 0 cur s = [(string_rev cur EmptyString ++ s)%string].
Proof.
  revert cur. induction s as [|c s IH]; intros cur C; cbn [split_aux].
  - f_equal. generalize (string_rev cur EmptyString). intro t.
    induction t as [|a t IHt]; cbn; [reflexivity | rewrite <- IHt; reflexivity].
  - cbn [contains] in C. apply orb_false_iff in C. destruct C as [C1 C2].
    rewrite C1, (IH _ C2). cbn [string_rev].
    rewrite (string_rev_app cur), string_app_assoc. reflexivity.
Qed.

Lemma split_aux_skip (sep cur s1 s2 : string) :
  split_aux sep (String.length s1) cur (s1 ++ s2) = split_aux sep 0 cur s2.
Proof.
  induction s1 as [|c s1 IH]; [reflexivity|]. cbn [String.length append split_aux].
  exact IH.
Qed.

Lemma prefix_app (s t : string) : String.prefix s (s ++ t) = true.
Proof.
  induction s as [|c s IH]; cbn [append String.prefix].
  - destruct t; reflexivity.
  - destruct (ascii_dec c c); [exact IH | contradiction].
Qed.

Lemma contains_prefix (sep s : string) :
  String.prefix sep s = true -> contains sep s = true.
Proof. intro P. destruct s; cbn [contains]; rewrite P; reflexivity. Qed.

(** Splitting at a separator a text that starts with it and does not hold
    it again. *)
Lemma split_prefixed (sep value : string) :
  sep <> EmptyString ->
  contains sep value = false ->
  split sep (sep ++ value) = [EmptyString; value].
Proof.
  intros NE C. destruct sep as [|c sep']; [congruence|].
  pose proof (prefix_app (String c sep') value) as P.
  unfold split. cbn [append] in P |- *. cbn [split_aux]. rewrite P.
  cbn [string_rev String.length Nat.sub]. rewrite Nat.sub_0_r.
  rewrite split_aux_skip, (split_aux_absent _ _ _ C). reflexivity.
Qed.

(** X22.  A line that, once stripped, is the label followed by a text in
    which the label does not occur again is read as that text, stripped:
    the number is what follows the label. *)
Theorem labelled_line_value (raw value : string) :
  strip raw = (label ++ value)%string ->
  contains label value = false ->
  parse_line raw = py_float (strip value).
Proof.
  intros E C. unfold parse_line. rewrite E.
  assert (NE : label <> EmptyString) by discriminate.
  rewrite (contains_prefix _ _ (prefix_app label value)).
  rewrite (split_prefixed label value NE C). reflexivity.
Qed.

(** ** More on the score *)

(** X23.  With the same number of blocks, less remaining time never gives a
    higher score; this holds for negative remaining times as well. *)
Theorem score_falls_with_time (g1 g2 : AtlasJengaGame) :
  blocks_removed g1 = blocks_removed g2 ->
  time_remaining g1 <= time_remaining g2 ->
  (calculate_score g1 <= calculate_score g2)%Z.
Proof.
  intros B T. rewrite !calculate_score_sum, B. apply py_int_monotone.
  apply round64_monotone. apply Qplus_le_l.
  apply round64_monotone. apply Qplus_le_l.
  apply round64_monotone. lra.
Qed.

(** X24.  With time remaining, one more block is worth 100 points, and the
    block that reaches [BLOCKS_TO_WIN] 200, give or take the one point by
    which binary64 rounding can raise either score; when ten times the
    remaining time is an integer it is worth exactly that. *)
Theorem block_is_worth_100 (g : AtlasJengaGame) :
  let b := blocks_removed g in
  let worth := (100 + if (b + 1 =? BLOCKS_TO_WIN) then 100 else 0)%Z in
  let gain := (calculate_score (set_blocks_removed (b + 1) g)
               - calculate_score g)%Z in
  0 <= time_remaining g ->
  (0 <= b)%Z ->
  (Qfloor (time_remaining g * 10) + (b + 4) * 100 < 2 ^ 53)%Z ->
  (worth - 1 <= gain <= worth + 1)%Z /\
  (forall n : Z, time_remaining g * 10 == inject_Z n -> gain = worth).
Proof.
  intros b worth gain T B Bound.
  set (g' := set_blocks_removed (b + 1) g).
  assert (N0 : (0 <= Qfloor (time_remaining g * 10))%Z).
  { change 0%Z with (Qfloor 0). apply Qfloor_resp_le. clear - T. lra. }
  assert (W : ((if BLOCKS_TO_WIN <=? b + 1 then 100 else 0)
               = (if BLOCKS_TO_WIN <=? b then 100 else 0)
                 + (if b + 1 =? BLOCKS_TO_WIN then 100 else 0))%Z).
  { unfold BLOCKS_TO_WIN.
    destruct (10 <=? b + 1)%Z eqn:E1; destruct (10 <=? b)%Z eqn:E2;
      destruct (b + 1 =? 10)%Z eqn:E3; lia. }
  assert (Hb : (0 <= (if BLOCKS_TO_WIN <=? b then 100 else 0) <= 100)%Z)
    by (clear; destruct (BLOCKS_TO_WIN <=? b)%Z; lia).
  assert (Hj : (0 <= (if b + 1 =? BLOCKS_TO_WIN then 100 else 0) <= 100)%Z)
    by (clear; destruct (b + 1 =? BLOCKS_TO_WIN)%Z; lia).
  split.
  - pose proof (calculate_score_between g) as S. cbv zeta in S.
    pose proof (calculate_score_between g') as S'. cbv zeta in S'.
    change (time_remaining g') with (time_remaining g) in S'.
    change (blocks_removed g') with (b + 1)%Z in S'.
    change (blocks_removed g) with b in S.
    rewrite W in S'.
    specialize (S B T ltac:(lia)). specialize (S' ltac:(lia) T ltac:(lia)).
    unfold gain, worth. fold g'. lia.
  - intros n E.
    assert (En : n = Qfloor (time_remaining g * 10))
      by (rewrite E, Qfloor_Z; reflexivity).
    pose proof (calculate_score_exact g n) as S. cbv zeta in S.
    pose proof (calculate_score_exact g' n) as S'. cbv zeta in S'.
    change (time_remaining g') with (time_remaining g) in S'.
    change (blocks_removed g') with (b + 1)%Z in S'.
    change (blocks_removed g) with b in S.
    rewrite W in S'.
    specialize (S E B ltac:(lia)). specialize (S' E ltac:(lia) ltac:(lia)).
    unfold gain, worth. fold g'. lia.
Qed.

(** ** The end screen *)

(** In [POSTGAME] a batch without a submit request only edits the name. *)
Lemma handle_events_name_only
  (now : Q) (evs : list PyEvent) (g : AtlasJengaGame) :
  state g = POSTGAME ->
  existsb is_submit evs = false ->
  exists running name,
    handle_events now evs g = Returned running (set_team_name name g).
Proof.
  revert g. induction evs as [|ev evs IH]; intros g P N.
  - exists true, (team_name g). rewrite (set_team_name_same g _ eq_refl).
    reflexivity.
  - cbn [existsb] in N. apply orb_false_iff in N. destruct N as [N1 N2].
    destruct ev as [|key unicode| |]; cbn [handle_events].
    + exists false, (team_name g). rewrite (set_team_name_same g _ eq_refl).
      reflexivity.
    + rewrite P. cbn [GameState_eqb]. destruct key; [discriminate| |].
      * destruct (IH (set_team_name (drop_last (team_name g)) g) P N2)
          as [r [name H]].
        exists r, name. rewrite H, set_team_name_twice. reflexivity.
      * destruct (IH (set_team_name (team_name g ++ unicode) g) P N2)
          as [r [name H]].
        exists r, name. rewrite H, set_team_name_twice. reflexivity.
    + rewrite P. cbn [GameState_eqb]. apply IH; assumption.
    + apply IH; assumption.
Qed.

(** X25.  The end screen is frozen: as long as no submit request comes,
    whatever time passes, whatever the scale sends and whatever is typed or
    clicked, the game stays in [POSTGAME] with the counters, the score and
    the leaderboard it had. *)
Theorem end_screen_is_frozen (frames : list Frame) (g : AtlasJengaGame) :
  state g = POSTGAME ->
  no_submit frames = true ->
  let g' := final (snd (run frames g)) in
  state g' = POSTGAME /\
  blocks_removed g' = blocks_removed g /\
  time_remaining g' = time_remaining g /\
  calculate_score g' = calculate_score g /\
  leaderboard g' = leaderboard g.
Proof.
  intros P N. cbv zeta.
  assert (G : forall frames g0,
             no_submit frames = true ->
             state g0 = POSTGAME ->
             state (final (snd (run frames g0))) = POSTGAME /\
             blocks_removed (final (snd (run frames g0))) = blocks_removed g0 /\
             time_remaining (final (snd (run frames g0))) = time_remaining g0 /\
             leaderboard (final (snd (run frames g0))) = leaderboard g0).
  { clear. induction frames as [|f frames IH]; intros g0 N P.
    - cbn. auto.
    - cbn [no_submit forallb] in N. apply andb_true_iff in N.
      destruct N as [N1 N2]. apply negb_true_iff in N1.
      cbn [run].
      assert (Pf : state (feed (arrivals f) g0) = POSTGAME)
        by (unfold feed; destruct (serial _); exact P).
      destruct (handle_events_name_only (t_events f) (events f) _ Pf N1)
        as [running [name H]].
      rewrite H.
      rewrite update_not_playing
        by (cbn [state set_team_name]; rewrite Pf; discriminate).
      assert (F : state (set_team_name name (feed (arrivals f) g0)) = POSTGAME /\
                  blocks_removed (set_team_name name (feed (arrivals f) g0))
                    = blocks_removed g0 /\
                  time_remaining (set_team_name name (feed (arrivals f) g0))
                    = time_remaining g0 /\
                  leaderboard (set_team_name name (feed (arrivals f) g0))
                    = leaderboard g0).
      { unfold feed. destruct (serial _); cbn; auto. }
      destruct F as [F1 [F2 [F3 F4]]].
      destruct running.
      + destruct (IH _ N2 F1) as [A [B [C D]]].
        destruct (run frames _) as [ticks st]. cbn [snd] in *.
        rewrite A, B, C, D. auto.
      + cbn. auto. }
  destruct (G frames g N P) as [A [B [C D]]].
  repeat split; try assumption.
  unfold calculate_score. rewrite B, C. reflexivity.
Qed.

End Program.

(** ** The scenarios, evaluated

    In what follows the reader of numbers is [decimal] and the [Score]
    class was defined at instant 1000. *)

Local Open Scope string_scope.

(** Closed facts are settled by evaluation. *)
Ltac evaluate :=
  repeat match goal with |- _ /\ _ => split end;
  vm_compute; first [reflexivity | discriminate].

(** C1, on the code.  There is no single classification of a pair of
    consecutive weights: [update] asks the collapse detector, which reads
    the scale, and then the removal detector, which reads it again.  With
    the stored weight at 100 and the lines 100 and 140 pending, the jump of
    40, above [COLLAPSE_THRESHOLD], is the second reading: the call reports
    [BlockRemoved], counts a block and leaves the game in [PLAYING] with
    140 as the stored weight.  With the single line 107 pending, a change of
    7, above [WEIGHT_THRESHOLD], the call reports no event. *)
Theorem jump_read_second_is_block_removed :
  state (jump_read_second decimal 1000) = PLAYING /\
  last_weight (serial_handler (jump_read_second decimal 1000)) = 100 /\
  serial (serial_handler (jump_read_second decimal 1000))
    = Some [Line "100"; Line "140"] /\
  Qltb COLLAPSE_THRESHOLD (140 - 100) = true /\
  fst (update decimal 1002 (jump_read_second decimal 1000)) = Some BlockRemoved /\
  blocks_removed (snd (update decimal 1002 (jump_read_second decimal 1000))) = 1%Z /\
  state (snd (update decimal 1002 (jump_read_second decimal 1000))) = PLAYING /\
  last_weight (serial_handler (snd (update decimal 1002 (jump_read_second decimal 1000))))
    = 140 /\
  serial (serial_handler (lone_sample decimal 1000)) = Some [Line "107"] /\
  Qltb WEIGHT_THRESHOLD (Qabs (107 - 100)) = true /\
  Qltb COLLAPSE_THRESHOLD (Qabs (107 - 100)) = false /\
  fst (update decimal 1002 (lone_sample decimal 1000)) = None /\
  blocks_removed (snd (update decimal 1002 (lone_sample decimal 1000))) = 0%Z.
Proof. evaluate. Qed.

(** C2, on the code.  With one line arriving per turn, 102, 97 and 107
    against a stored weight of 100, the three calls of [update] report
    nothing: the third sample, 7 above the stored weight, is read by the
    collapse detector and the removal detector never sees it. *)
Theorem one_sample_per_tick_reports_nothing :
  last_weight (serial_handler (playing_at_100 decimal 1000)) = 100 /\
  map emitted (fst (run decimal 1000 one_sample_per_tick (playing_at_100 decimal 1000)))
    = [None; None; None] /\
  blocks_removed (final (snd (run decimal 1000 one_sample_per_tick (playing_at_100 decimal 1000))))
    = 0%Z.
Proof. evaluate. Qed.

(** C4, on the code.  A jump from 100 to 140 during [PLAYING] is reported
    as [TowerCollapsed] and ends the game, and [tower_collapsed] is still
    [False] afterwards. *)
Theorem collapse_leaves_flag_unset :
  state (tower_fallen decimal 1000) = PLAYING /\
  fst (update decimal 1002 (tower_fallen decimal 1000)) = Some TowerCollapsed /\
  state (snd (update decimal 1002 (tower_fallen decimal 1000))) = POSTGAME /\
  tower_collapsed (snd (update decimal 1002 (tower_fallen decimal 1000))) = false.
Proof. evaluate. Qed.



(** C5 as stated fails: a line that parses to 42 is returned, and the
    stored weight is still 0 after the call. *)
Lemma read_weight_keeps_last_weight_counterexample :
  parse_line decimal "42" = Some 42 /\
  fst (read_weight decimal one_line_pending) = 42 /\
  ~ last_weight (snd (read_weight decimal one_line_pending)) == 42.
Proof. evaluate. Qed.

Lemma read_weight_cases_witness :
  serial one_line_pending = Some [Line "42"] /\
  parse_line decimal "42" = Some 42 /\
  read_weight decimal one_line_pending
    = (42, {| serial := Some []; last_weight := 0 |}).
Proof.
  assert (S : serial one_line_pending = Some [Line "42"]) by evaluate.
  assert (V : parse_line decimal "42" = Some 42) by evaluate.
  split; [exact S|]. split; [exact V|].
  exact (proj1 (proj2 (read_weight_cases decimal 1000 one_line_pending))
           "42" [] 42 S V).
Defined.

Lemma start_request_resets_witness :
  state (after_first_game decimal 1000) = PREGAME /\
  blocks_removed (after_first_game decimal 1000) = 1%Z /\
  team_name (after_first_game decimal 1000) = "A" /\
  exists running g',
    handle_events decimal 1000 1300 ([] ++ [MOUSEBUTTONDOWN]) (after_first_game decimal 1000)
      = Returned running g' /\
    state g' = PLAYING /\
    blocks_removed g' = 0%Z /\
    time_remaining g' = GAME_DURATION /\
    tower_collapsed g' = false /\
    team_name g' = EmptyString /\
    start_time g' = 1300.
Proof.
  assert (S : state (after_first_game decimal 1000) = PREGAME) by evaluate.
  split; [exact S|]. split; [evaluate|]. split; [evaluate|].
  exact (start_request_resets decimal 1000 1300 [] [] (after_first_game decimal 1000)
           (after_first_game decimal 1000) eq_refl S).
Defined.

Lemma baseline_follows_event_witness :
  fst (update decimal 1002 (block_taken decimal 1000)) = Some BlockRemoved /\
  last_weight (serial_handler (snd (update decimal 1002 (block_taken decimal 1000)))) = 120 /\
  fst (update decimal 1003
         (feed [Line "120"] (snd (update decimal 1002 (block_taken decimal 1000))))) = None.
Proof.
  assert (E : fst (update decimal 1002 (block_taken decimal 1000)) = Some BlockRemoved)
    by evaluate.
  destruct (baseline_follows_event decimal 1002 (block_taken decimal 1000) BlockRemoved E)
    as [A B].
  split; [exact E|]. split; [rewrite A; evaluate|].
  apply (B 1003 [Line "120"]).
  intros pending H. vm_compute in H. injection H as <-. evaluate.
Defined.

Lemma no_port_no_sensor_events_witness :
  Forall quiet_tick
    (fst (run decimal 1000 [click 1001; idle [Line "140"] 1002; idle [] 1122]
            (init decimal None empty_db 1000))).
Proof.
  exact (proj1 (no_port_no_sensor_events decimal 1000 empty_db 1000
                  [click 1001; idle [Line "140"] 1002; idle [] 1122])).
Defined.

(** C9 as stated fails: with a leaderboard that fails, the turn in which
    the score is submitted is the last one.  The exception leaves [run]
    before [update] is called, and the turn that follows is never taken. *)
Lemma submit_failure_stops_loop_counterexample :
  state (timed_out decimal 1000 broken_db) = POSTGAME /\
  io_failure (leaderboard (timed_out decimal 1000 broken_db)) = true /\
  run decimal 1000 [submit_A; idle [] 1202] (timed_out decimal 1000 broken_db)
    = ([], Crashed sqlite3_Error (set_team_name "A" (timed_out decimal 1000 broken_db))) /\
  ~ exists g, snd (run decimal 1000 [submit_A; idle [] 1202] (timed_out decimal 1000 broken_db))
              = Running g.
Proof.
  split; [evaluate|]. split; [evaluate|]. split; [evaluate|].
  intros [g H]. vm_compute in H. discriminate.
Qed.

Lemma submit_failure_propagates_witness :
  state (set_team_name "A" (timed_out decimal 1000 broken_db)) = POSTGAME /\
  io_failure (leaderboard (set_team_name "A" (timed_out decimal 1000 broken_db))) = true /\
  handle_events decimal 1000 (t_events submit_A) (events submit_A)
    (feed (arrivals submit_A) (timed_out decimal 1000 broken_db))
    = Raised sqlite3_Error (set_team_name "A" (timed_out decimal 1000 broken_db)) /\
  run decimal 1000 [submit_A; idle [] 1202] (timed_out decimal 1000 broken_db)
    = ([], Crashed sqlite3_Error (set_team_name "A" (timed_out decimal 1000 broken_db))).
Proof.
  assert (S : state (set_team_name "A" (timed_out decimal 1000 broken_db)) = POSTGAME)
    by evaluate.
  assert (F : io_failure (leaderboard (set_team_name "A" (timed_out decimal 1000 broken_db)))
              = true) by evaluate.
  assert (H : handle_events decimal 1000 (t_events submit_A)
                [KEYDOWN K_other "A"]
                (feed (arrivals submit_A) (timed_out decimal 1000 broken_db))
              = Returned true (set_team_name "A" (timed_out decimal 1000 broken_db)))
    by evaluate.
  split; [exact S|]. split; [exact F|].
  exact (submit_failure_propagates decimal 1000 submit_A [idle [] 1202]
           (timed_out decimal 1000 broken_db) (set_team_name "A" (timed_out decimal 1000 broken_db))
           [KEYDOWN K_other "A"] [] CR eq_refl H S F).
Defined.

Lemma submitted_timestamps_identical_witness :
  exists added,
    rows (leaderboard
            (final (snd (run decimal 1000 two_submissions
                           (init decimal None empty_db 1000)))))
      = (rows (leaderboard (init decimal None empty_db 1000)) ++ added)%list /\
    Forall (fun s => Score.timestamp s = 1000) added /\
    forall s1 s2, In s1 added -> In s2 added ->
                  Score.timestamp s1 = Score.timestamp s2.
Proof.
  exact (submitted_timestamps_identical decimal 1000 two_submissions
           (init decimal None empty_db 1000)).
Defined.

(** The two rows of that run: submitted 300 seconds apart, stamped alike. *)
Example two_submissions_timestamps :
  map Score.timestamp
      (rows (leaderboard
               (final (snd (run decimal 1000 two_submissions
                              (init decimal None empty_db 1000))))))
    = [1000; 1000].
Proof. evaluate. Qed.

(** ** The further properties, on the scenarios *)


Lemma get_top_scores_descending_witness :
  exists top_scores,
    get_top_scores sample_table 5 = inl top_scores /\
    StronglySorted scores_no_less top_scores.
Proof.
  eexists. split; [vm_compute; reflexivity|].
  apply (get_top_scores_descending sample_table 5). vm_compute. reflexivity.
Defined.

Lemma get_top_scores_length_witness :
  io_failure sample_table = false /\
  exists top_scores,
    get_top_scores sample_table 5 = inl top_scores /\
    length top_scores = 5%nat.
Proof.
  assert (F : io_failure sample_table = false) by evaluate.
  assert (R : (- 2 ^ 63 <= 5 < 2 ^ 63)%Z) by lia.
  split; [exact F|].
  destruct (proj2 (proj2 (get_top_scores_length sample_table 5)) F R)
    as [top_scores [E L]].
  exists top_scores. split; [exact E | exact L].
Defined.

Lemma get_top_scores_are_the_best_witness :
  exists top_scores dropped,
    get_top_scores sample_table 5 = inl top_scores /\
    Permutation (top_scores ++ dropped) (rows sample_table) /\
    forall a b, In a top_scores -> In b dropped ->
                (Score.total_score b <= Score.total_score a)%Z.
Proof.
  assert (E : exists top_scores, get_top_scores sample_table 5 = inl top_scores)
    by (eexists; vm_compute; reflexivity).
  destruct E as [top_scores E].
  destruct (get_top_scores_are_the_best sample_table 5 top_scores E)
    as [dropped [P B]].
  exists top_scores, dropped. split; [exact E|]. split; [exact P | exact B].
Defined.

Lemma high_score_is_listed_witness :
  exists top_scores,
    get_top_scores sample_table 5 = inl top_scores /\
    In (sample_row "fay" 800) (rows sample_table) /\
    (scoring_at_least 800 (rows sample_table) <= 5)%nat /\
    In (sample_row "fay" 800) top_scores.
Proof.
  assert (E : exists top_scores, get_top_scores sample_table 5 = inl top_scores)
    by (eexists; vm_compute; reflexivity).
  destruct E as [top_scores E].
  assert (I : In (sample_row "fay" 800) (rows sample_table))
    by (vm_compute; tauto).
  assert (C : (scoring_at_least (Score.total_score (sample_row "fay" 800))
                 (rows sample_table) <= Z.to_nat 5)%nat)
    by (vm_compute; lia).
  exists top_scores. split; [exact E|]. split; [exact I|]. split; [exact C|].
  exact (high_score_is_listed sample_table 5 top_scores _ E I C).
Defined.

Lemma add_then_query_witness :
  exists l' top_scores,
    add_score sample_table (sample_row "hal" 900) = inl l' /\
    get_top_scores l' 8 = inl top_scores /\
    Permutation top_scores (sample_row "hal" 900 :: rows sample_table).
Proof.
  assert (A : exists l', add_score sample_table (sample_row "hal" 900) = inl l')
    by (eexists; vm_compute; reflexivity).
  destruct A as [l' A].
  assert (L : (Z.of_nat (length (rows sample_table)) < 8 < 2 ^ 63)%Z)
    by (split; evaluate).
  destruct (add_then_query sample_table l' (sample_row "hal" 900) 8 A L)
    as [top_scores [E P]].
  exists l', top_scores. split; [exact A|]. split; [exact E | exact P].
Defined.

Lemma typed_name_is_stored_witness :
  state (timed_out decimal 1000 empty_db) = POSTGAME /\
  io_failure (leaderboard (timed_out decimal 1000 empty_db)) = false /\
  exists g1,
    handle_events decimal 1000 1130
      (map typed ["A"; "B"]%char ++ [KEYDOWN K_RETURN CR])
      (timed_out decimal 1000 empty_db)
      = Returned true g1 /\
    state g1 = PREGAME /\
    rows (leaderboard g1)
      = [row_of 1000 "AB" (timed_out decimal 1000 empty_db)].
Proof.
  assert (S : state (timed_out decimal 1000 empty_db) = POSTGAME) by evaluate.
  assert (F : io_failure (leaderboard (timed_out decimal 1000 empty_db)) = false)
    by evaluate.
  split; [exact S|]. split; [exact F|].
  destruct (typed_name_is_stored decimal 1000 1130 ["A"; "B"]%char CR []
              (timed_out decimal 1000 empty_db) S F)
    as [g1 [E [S1 [R _]]]].
  exists g1. split; [exact E|]. split; [exact S1 | exact R].
Defined.

Lemma backspace_undoes_typing_witness :
  state (timed_out decimal 1000 empty_db) = POSTGAME /\
  handle_events decimal 1000 1130
    (map typed ["A"; "B"]%char ++ repeat backspace 2 ++ [])
    (timed_out decimal 1000 empty_db)
    = Returned true (timed_out decimal 1000 empty_db).
Proof.
  assert (S : state (timed_out decimal 1000 empty_db) = POSTGAME) by evaluate.
  split; [exact S|].
  exact (backspace_undoes_typing decimal 1000 1130 ["A"; "B"]%char []
           (timed_out decimal 1000 empty_db) S).
Defined.

Lemma input_ignored_while_playing_witness :
  state (block_taken decimal 1000) = PLAYING /\
  handle_events decimal 1000 1002
    [typed "A"; MOUSEBUTTONDOWN; KEYDOWN K_RETURN CR; QUIT; MOUSEBUTTONDOWN]
    (block_taken decimal 1000)
    = Returned false (block_taken decimal 1000).
Proof.
  assert (S : state (block_taken decimal 1000) = PLAYING) by evaluate.
  split; [exact S|].
  exact (input_ignored_while_playing decimal 1000 1002
           [typed "A"; MOUSEBUTTONDOWN; KEYDOWN K_RETURN CR; QUIT; MOUSEBUTTONDOWN]
           (block_taken decimal 1000) S).
Defined.

Lemma one_row_per_batch_witness :
  let g := timed_out decimal 1000 empty_db in
  let g' := outcome_game
              (handle_events decimal 1000 1130
                 [typed "A"; KEYDOWN K_RETURN CR; MOUSEBUTTONDOWN;
                  KEYDOWN K_RETURN CR] g) in
  rows (leaderboard g') = rows (leaderboard g) \/
  (state g = POSTGAME /\
   exists name,
     rows (leaderboard g') = (rows (leaderboard g) ++ [row_of 1000 name g])%list).
Proof.
  exact (one_row_per_batch decimal 1000 1130
           [typed "A"; KEYDOWN K_RETURN CR; MOUSEBUTTONDOWN; KEYDOWN K_RETURN CR]
           (timed_out decimal 1000 empty_db)).
Defined.


Lemma update_uses_up_reads_witness :
  pending_reads (serial_handler (tower_fallen decimal 1000))
    = [Line "Load_cell output val: 140"] /\
  pending_reads
    (serial_handler (snd (update decimal 1002 (tower_fallen decimal 1000))))
    = skipn (reads_used PLAYING (Some TowerCollapsed))
            (pending_reads (serial_handler (tower_fallen decimal 1000))).
Proof.
  split; [evaluate|].
  exact (update_uses_up_reads decimal 1002 (tower_fallen decimal 1000)).
Defined.

Lemma update_counts_and_phase_witness :
  state (block_taken decimal 1000) = PLAYING /\
  time_remaining (snd (update decimal 1002 (block_taken decimal 1000)))
    = GAME_DURATION - (1002 - start_time (block_taken decimal 1000)) /\
  blocks_removed (snd (update decimal 1002 (block_taken decimal 1000)))
    = (blocks_removed (block_taken decimal 1000) + 1)%Z.
Proof.
  assert (S : state (block_taken decimal 1000) = PLAYING) by evaluate.
  split; [exact S|].
  destruct (update_counts_and_phase decimal 1002 (block_taken decimal 1000) S)
    as [T [B _]].
  split; [exact T|]. rewrite B. evaluate.
Defined.

Lemma deadline_ends_game_witness :
  state (block_taken decimal 1000) = PLAYING /\
  GAME_DURATION <= 1121 - start_time (block_taken decimal 1000) /\
  state (snd (update decimal 1121 (block_taken decimal 1000))) = POSTGAME.
Proof.
  assert (S : state (block_taken decimal 1000) = PLAYING) by evaluate.
  assert (D : GAME_DURATION <= 1121 - start_time (block_taken decimal 1000))
    by evaluate.
  split; [exact S|]. split; [exact D|].
  exact (deadline_ends_game decimal 1121 (block_taken decimal 1000) S D).
Defined.

Lemma removal_decided_by_second_read_witness :
  serial (serial_handler (block_taken decimal 1000))
    = Some [Line "120"; Line "120"] /\
  fst (update decimal 1002 (block_taken decimal 1000)) = Some BlockRemoved /\
  exists first raw rest v,
    [Line "120"; Line "120"] = first :: Line raw :: rest /\
    parse_line decimal raw = Some v /\
    WEIGHT_THRESHOLD
      < Qabs (v - last_weight (serial_handler (block_taken decimal 1000))).
Proof.
  assert (S : serial (serial_handler (block_taken decimal 1000))
              = Some [Line "120"; Line "120"]) by evaluate.
  assert (E : fst (update decimal 1002 (block_taken decimal 1000))
              = Some BlockRemoved) by evaluate.
  split; [exact S|]. split; [exact E|].
  exact (removal_decided_by_second_read decimal 1002 (block_taken decimal 1000)
           _ S E).
Defined.

Lemma blocks_removed_in_range_witness :
  counter_in_range
    (final (snd (run decimal 1000 whole_game
                   (init decimal None sample_table 1000)))) /\
  Forall (fun tk => counter_in_range (after tk))
         (fst (run decimal 1000 whole_game
                 (init decimal None sample_table 1000))).
Proof.
  exact (blocks_removed_in_range decimal 1000 None sample_table 1000 whole_game).
Defined.

Lemma live_score_not_negative_witness :
  Forall (fun tk => state (after tk) = PLAYING ->
                    0 < time_remaining (after tk) /\
                    (0 <= calculate_score (after tk))%Z)
         (fst (run decimal 1000 whole_game
                 (init decimal None sample_table 1000))).
Proof.
  exact (live_score_not_negative decimal 1000 None sample_table 1000 whole_game).
Defined.

Lemma sounds_played_by_update_witness :
  state (block_taken decimal 1000) = PLAYING /\
  audio (snd (update decimal 1121 (block_taken decimal 1000)))
    = (audio (block_taken decimal 1000) ++ ["block_removed"; "failure"])%list.
Proof.
  assert (S : state (block_taken decimal 1000) = PLAYING) by evaluate.
  split; [exact S|].
  rewrite (sounds_played_by_update decimal 1121 (block_taken decimal 1000) S).
  evaluate.
Defined.

Lemma draw_raises_iff_witness :
  state (timed_out decimal 1000 broken_db) <> PLAYING /\
  io_failure (leaderboard (timed_out decimal 1000 broken_db)) = true /\
  exists e, draw fixed_pitch (timed_out decimal 1000 broken_db) = inr e.
Proof.
  assert (S : state (timed_out decimal 1000 broken_db) <> PLAYING) by evaluate.
  assert (F : io_failure (leaderboard (timed_out decimal 1000 broken_db)) = true)
    by evaluate.
  split; [exact S|]. split; [exact F|].
  exact (proj2 (draw_raises_iff fixed_pitch (timed_out decimal 1000 broken_db))
           (conj S F)).
Defined.

Lemma leaderboard_fits_the_window_witness :
  state (init decimal None sample_table 1000) <> PLAYING /\
  exists blits fixed lines,
    draw fixed_pitch (init decimal None sample_table 1000) = inl blits /\
    blits = (fixed ++ lines)%list /\
    length fixed = 3%nat /\
    length lines = 5%nat /\
    map top lines = firstn (length lines) leaderboard_tops.
Proof.
  assert (S : state (init decimal None sample_table 1000) <> PLAYING) by evaluate.
  split; [exact S|].
  assert (D : exists blits,
             draw fixed_pitch (init decimal None sample_table 1000) = inl blits)
    by (eexists; vm_compute; reflexivity).
  destruct D as [blits D].
  destruct (leaderboard_fits_the_window fixed_pitch _ blits S D)
    as [fixed [lines [E [LF [LL T]]]]].
  exists blits, fixed, lines.
  split; [exact D|]. split; [exact E|]. split; [exact LF|].
  split; [exact LL | exact T].
Defined.

Lemma end_screen_headline_witness :
  Forall (fun sh =>
            state (after (tick sh)) = POSTGAME ->
            exists below,
              screen sh = verdict fixed_pitch (after (tick sh)) :: below)
         (fst (run_drawing decimal 1000 fixed_pitch
                 [click 1001; idle [Line "140"] 1002; idle [] 1003]
                 (init decimal (Some [Line "100"]) sample_table 1000))).
Proof.
  exact (end_screen_headline decimal 1000 fixed_pitch (Some [Line "100"])
           sample_table 1000
           [click 1001; idle [Line "140"] 1002; idle [] 1003]).
Defined.

(** The game of that run ends by a collapse, and its end screen is headed
    Game Over. *)
Example collapse_is_shown_as_game_over :
  map (fun sh => (emitted (tick sh), option_map text (hd_error (screen sh))))
      (fst (run_drawing decimal 1000 fixed_pitch
              [click 1001; idle [Line "140"] 1002; idle [] 1003]
              (init decimal (Some [Line "100"]) sample_table 1000)))
    = [(None, Some "Time: 120s");
       (Some TowerCollapsed, Some "Game Over");
       (None, Some "Game Over")].
Proof. evaluate. Qed.

Lemma drawing_changes_nothing_witness :
  io_failure (leaderboard (init decimal None sample_table 1000)) = false /\
  map tick (fst (run_drawing decimal 1000 fixed_pitch whole_game
                   (init decimal None sample_table 1000)))
    = fst (run decimal 1000 whole_game (init decimal None sample_table 1000)) /\
  snd (run_drawing decimal 1000 fixed_pitch whole_game
         (init decimal None sample_table 1000))
    = snd (run decimal 1000 whole_game (init decimal None sample_table 1000)).
Proof.
  assert (F : io_failure (leaderboard (init decimal None sample_table 1000))
              = false) by evaluate.
  split; [exact F|].
  exact (drawing_changes_nothing decimal 1000 fixed_pitch whole_game
           (init decimal None sample_table 1000) F).
Defined.

Lemma labelled_line_value_witness :
  strip "  Load_cell output val: 12.5 " = (label ++ " 12.5")%string /\
  contains label " 12.5" = false /\
  parse_line decimal "  Load_cell output val: 12.5 " = Some 12.5.
Proof.
  assert (E : strip "  Load_cell output val: 12.5 " = (label ++ " 12.5")%string)
    by evaluate.
  assert (C : contains label " 12.5" = false) by evaluate.
  split; [exact E|]. split; [exact C|].
  rewrite (labelled_line_value decimal _ _ E C). evaluate.
Defined.

Lemma score_falls_with_time_witness :
  blocks_removed (timed_out decimal 1000 empty_db)
    = blocks_removed (block_taken decimal 1000) /\
  time_remaining (timed_out decimal 1000 empty_db)
    <= time_remaining (block_taken decimal 1000) /\
  (calculate_score (timed_out decimal 1000 empty_db)
   <= calculate_score (block_taken decimal 1000))%Z.
Proof.
  assert (B : blocks_removed (timed_out decimal 1000 empty_db)
              = blocks_removed (block_taken decimal 1000)) by evaluate.
  assert (T : time_remaining (timed_out decimal 1000 empty_db)
              <= time_remaining (block_taken decimal 1000)) by evaluate.
  split; [exact B|]. split; [exact T|].
  exact (score_falls_with_time _ _ B T).
Defined.

Lemma block_is_worth_100_witness :
  0 <= time_remaining (block_taken decimal 1000) /\
  (0 <= blocks_removed (block_taken decimal 1000))%Z /\
  (Qfloor (time_remaining (block_taken decimal 1000) * 10)
   + (blocks_removed (block_taken decimal 1000) + 4) * 100 < 2 ^ 53)%Z /\
  time_remaining (block_taken decimal 1000) * 10 == inject_Z 1200 /\
  (calculate_score
     (set_blocks_removed (blocks_removed (block_taken decimal 1000) + 1)
        (block_taken decimal 1000))
   - calculate_score (block_taken decimal 1000))%Z
    = (100 + if (blocks_removed (block_taken decimal 1000) + 1 =? BLOCKS_TO_WIN)
             then 100 else 0)%Z.
Proof.
  assert (T : 0 <= time_remaining (block_taken decimal 1000)) by evaluate.
  assert (B : (0 <= blocks_removed (block_taken decimal 1000))%Z) by evaluate.
  assert (D : (Qfloor (time_remaining (block_taken decimal 1000) * 10)
               + (blocks_removed (block_taken decimal 1000) + 4) * 100
               < 2 ^ 53)%Z) by evaluate.
  assert (E : time_remaining (block_taken decimal 1000) * 10 == inject_Z 1200)
    by evaluate.
  split; [exact T|]. split; [exact B|]. split; [exact D|]. split; [exact E|].
  exact (proj2 (block_is_worth_100 (block_taken decimal 1000) T B D) 1200%Z E).
Defined.

Lemma end_screen_is_frozen_witness :
  state (timed_out decimal 1000 sample_table) = POSTGAME /\
  no_submit dawdling = true /\
  state (final (snd (run decimal 1000 dawdling
                       (timed_out decimal 1000 sample_table)))) = POSTGAME /\
  calculate_score
    (final (snd (run decimal 1000 dawdling
                   (timed_out decimal 1000 sample_table))))
    = calculate_score (timed_out decimal 1000 sample_table).
Proof.
  assert (S : state (timed_out decimal 1000 sample_table) = POSTGAME) by evaluate.
  assert (N : no_submit dawdling = true) by evaluate.
  split; [exact S|]. split; [exact N|].
  destruct (end_screen_is_frozen decimal 1000 dawdling
              (timed_out decimal 1000 sample_table) S N)
    as [A [_ [_ [C _]]]].
  split; [exact A | exact C].
Defined.
